(** * graph_service: the ingestion and retrieval routers over the Graphiti engine

    A shallow embedding of [graph_service/routers/ingest.py],
    [graph_service/routers/retrieve.py] and the DTOs of [graph_service/dto],
    with the properties of the authentication gate, the background worker,
    the request transformers and the route handlers. *)

From Stdlib Require Import ZArith List String Ascii Bool Lia.
From Stdlib Require Import Numbers.DecimalString.
Import ListNotations.

Local Open Scope string_scope.
Local Open Scope Z_scope.

(** ** Exceptions

    The exceptions that the modelled code raises or lets through. *)
Inductive exn : Type :=
| HTTPException (status_code : Z) (detail : string)
| ValidationError (field : string)
| ValueError
| IndexError
| AttributeError (name : string)
| CancelledError
| EngineError (reason : string).

(** A computation that either raises or returns. *)
Definition result (A : Type) : Type := (exn + A)%type.

(** ** The Python primitives the routers use

    A [str] is a sequence of characters; it is modelled by [string], whose
    characters are [ascii]. Nothing below looks inside a character except
    to compare it with the separator of [split]. *)
Module Py.

Definition len (s : string) : Z := Z.of_nat (String.length s).

(** [range(start, stop, step)]: the ascending walk for a positive step,
    the descending one for a negative step, [ValueError] for a zero step.
    The walk stops by itself; [fuel] only bounds it for the termination
    checker and is chosen large enough in [range]. *)
Fixpoint range_up (fuel : nat) (i stop step : Z) : list Z :=
  match fuel with
  | O => []
  | S fuel' =>
      if i <? stop then i :: range_up fuel' (i + step) stop step else []
  end.

Fixpoint range_down (fuel : nat) (i stop step : Z) : list Z :=
  match fuel with
  | O => []
  | S fuel' =>
      if stop <? i then i :: range_down fuel' (i + step) stop step else []
  end.

Definition range (start stop step : Z) : result (list Z) :=
  if step =? 0 then inl ValueError
  else if 0 <? step
       then inr (range_up (Z.to_nat (stop - start)) start stop step)
       else inr (range_down (Z.to_nat (start - stop)) start stop step).

(** A slice bound [k] of a sequence of length [n]: a negative bound counts
    from the end, and every bound is clipped to [0..n]. *)
Definition clamp_index (n k : Z) : Z :=
  if k <? 0 then Z.max 0 (k + n) else Z.min k n.

(** [s[i:j]] *)
Definition slice (s : string) (i j : Z) : string :=
  let n := len s in
  let lo := clamp_index n i in
  let hi := clamp_index n j in
  substring (Z.to_nat lo) (Z.to_nat (hi - lo)) s.

(** [s.startswith(p)] *)
Fixpoint startswith (s p : string) {struct p} : bool :=
  match p with
  | EmptyString => true
  | String c p' =>
      match s with
      | EmptyString => false
      | String c' s' => Ascii.eqb c' c && startswith s' p'
      end
  end.

(** [s.split(sep)] for a separator of one character: the pieces between
    the occurrences of [sep], empty pieces included; never an empty list. *)
Fixpoint split (sep : ascii) (s : string) : list string :=
  match s with
  | EmptyString => [EmptyString]
  | String c s' =>
      if Ascii.eqb c sep then EmptyString :: split sep s'
      else match split sep s' with
           | [] => [String c EmptyString]
           | w :: ws => String c w :: ws
           end
  end.

(** [sep.join(parts)] *)
Fixpoint join (sep : string) (parts : list string) : string :=
  match parts with
  | [] => EmptyString
  | [p] => p
  | p :: rest => p ++ sep ++ join sep rest
  end.

(** [l[i]] for a non-negative index. *)
Definition item {A : Type} (l : list A) (i : nat) : result A :=
  match nth_error l i with
  | Some x => inr x
  | None => inl IndexError
  end.

(** [str(n)] for an integer, as in an f-string. *)
Definition str_of_int (n : Z) : string :=
  NilZero.string_of_int (Z.to_int n).

(** [enumerate(l)], counting from [start]. *)
Fixpoint enumerate_from {A : Type} (start : Z) (l : list A) : list (Z * A) :=
  match l with
  | [] => []
  | x :: l' => (start, x) :: enumerate_from (start + 1) l'
  end.

Definition enumerate {A : Type} (l : list A) : list (Z * A) :=
  enumerate_from 0 l.

(** How an f-string renders an optional string: [None] prints as its
    name. *)
Definition str_of_optional (o : option string) : string :=
  match o with
  | Some s => s
  | None => "None"
  end.

(** [a != b] between a [str] and an [Optional[str]]. *)
Definition ne_optional (a : string) (b : option string) : bool :=
  match b with
  | Some b' => negb (String.eqb a b')
  | None => true
  end.

End Py.

(** ** External collaborators

    [datetime] values are only carried around and printed with
    [isoformat()]. *)
Class DateTime : Type := {
  datetime : Type;
  isoformat : datetime -> string
}.

(** [graphiti_core.nodes.EpisodeType], the two members the routers use. *)
Inductive EpisodeType : Type :=
| EpisodeType_message
| EpisodeType_text.

(** The configuration object of a search recipe: the result limit that
    [advanced_search_v2] overwrites, and the rest of the recipe. *)
Record SearchConfig {Body : Type} : Type := mkSearchConfig {
  limit : Z;
  config_body : Body
}.
Arguments SearchConfig Body : clear implicits.
Arguments mkSearchConfig {Body} limit config_body.

(** [config.limit = n] on a copy of the recipe. *)
Definition set_limit {Body : Type} (n : Z) (c : SearchConfig Body)
  : SearchConfig Body :=
  mkSearchConfig n (config_body c).

(** The DTOs of [graph_service/dto]. Each record lives in a module of the
    DTO's name, so that the fields keep the names they have in the source. *)
Module Result.
Record t : Type := mk { message : string; success : bool }.
End Result.

Inductive RoleType : Type := user | assistant | system.

Definition RoleType_str (r : RoleType) : string :=
  match r with
  | user => "user"
  | assistant => "assistant"
  | system => "system"
  end.

Module Message.
Section Dto.
Context {DT : DateTime}.
Record t : Type := mk {
  content : string;
  uuid : option string;
  name : string;
  role_type : RoleType;
  role : option string;
  timestamp : datetime;
  source_description : string
}.
End Dto.
End Message.

Module AddTextEpisodeRequest.
Section Dto.
Context {DT : DateTime}.
Record t : Type := mk {
  group_id : string;
  name : string;
  content : string;
  source_description : string;
  reference_time : datetime
}.
End Dto.
End AddTextEpisodeRequest.

Module AddConversationEpisodeRequest.
Section Dto.
Context {DT : DateTime}.
Record t : Type := mk {
  group_id : string;
  name : string;
  messages : list Message.t;
  source_description : string;
  reference_time : datetime
}.
End Dto.
End AddConversationEpisodeRequest.

Module AddDocumentRequest.
Section Dto.
Context {DT : DateTime}.
Record t : Type := mk {
  group_id : string;
  name : string;
  content : string;
  source_description : string;
  reference_time : datetime
}.
End Dto.
End AddDocumentRequest.

Module FactResult.
Section Dto.
Context {DT : DateTime}.
Record t : Type := mk {
  uuid : string;
  name : string;
  fact : string;
  valid_at : option datetime;
  invalid_at : option datetime;
  created_at : datetime;
  expired_at : option datetime
}.
End Dto.
End FactResult.

Module NodeResult.
Section Dto.
Context {DT : DateTime}.
Record t : Type := mk {
  uuid : string;
  name : string;
  summary : option string;
  labels : list string;
  created_at : datetime;
  attributes : option (list (string * string))
}.
End Dto.
End NodeResult.

Module SearchResults.
Section Dto.
Context {DT : DateTime}.
Record t : Type := mk { facts : list FactResult.t }.
End Dto.
End SearchResults.

Module AdvancedSearchV2Response.
Section Dto.
Context {DT : DateTime}.
Record t : Type := mk {
  facts : list FactResult.t;
  nodes : list NodeResult.t
}.
End Dto.
End AdvancedSearchV2Response.

Module SearchQuery.
Record t : Type := mk {
  group_ids : option (list string);
  query : string;
  max_facts : Z
}.
End SearchQuery.

(** [CenteredSearchQuery(SearchQuery)]: the inherited fields and one more. *)
Module CenteredSearchQuery.
Record t : Type := mk {
  group_ids : option (list string);
  query : string;
  max_facts : Z;
  center_node_uuid : string
}.
End CenteredSearchQuery.

Module AdvancedSearchRequest.
Record t : Type := mk {
  query : string;
  max_facts : Z;
  group_ids : option (list string);
  recipe : string
}.
End AdvancedSearchRequest.

Module AdvancedSearchV2Request.
Record t : Type := mk {
  query : string;
  max_facts : Z;
  group_ids : option (list string);
  recipe : string
}.
End AdvancedSearchV2Request.

(** ** Field declarations and their validation

    What a [Field(...)] declaration of an integer can say, and how a raw
    value is checked against it. A raw payload has already been parsed: a
    field is absent ([None]) or holds a value of the declared type. *)
Module Pydantic.

Record IntField : Type := mkIntField {
  default : option Z;
  gt : option Z;
  ge : option Z;
  lt : option Z;
  le : option Z
}.

Definition bound_ok (bound : option Z) (test : Z -> Z -> bool) (v : Z)
  : bool :=
  match bound with
  | Some b => test v b
  | None => true
  end.

Definition constraints_ok (f : IntField) (v : Z) : bool :=
  bound_ok (gt f) Z.gtb v && bound_ok (ge f) Z.geb v
  && bound_ok (lt f) Z.ltb v && bound_ok (le f) Z.leb v.

Definition validate_int (name : string) (f : IntField) (raw : option Z)
  : result Z :=
  match raw with
  | Some v =>
      if constraints_ok f v then inr v else inl (ValidationError name)
  | None =>
      match default f with
      | Some d => inr d
      | None => inl (ValidationError name)
      end
  end.

(** A field declared with [...] or without a default is required. *)
Definition validate_required {A : Type} (name : string) (raw : option A)
  : result A :=
  match raw with
  | Some v => inr v
  | None => inl (ValidationError name)
  end.

(** [Literal[...]]: required here, and one of the listed strings. *)
Definition validate_literal (name : string) (allowed : list string)
  (raw : option string) : result string :=
  match raw with
  | Some v =>
      if existsb (String.eqb v) allowed then inr v
      else inl (ValidationError name)
  | None => inl (ValidationError name)
  end.

End Pydantic.

(** The raw payloads of the search routes and the DTO declarations of
    [graph_service/dto/retrieve.py]. *)
Module Raw.

Record SearchQuery : Type := mkSearchQuery {
  sq_group_ids : option (list string);
  sq_query : option string;
  sq_max_facts : option Z
}.

Record CenteredSearchQuery : Type := mkCenteredSearchQuery {
  cq_group_ids : option (list string);
  cq_query : option string;
  cq_max_facts : option Z;
  cq_center_node_uuid : option string
}.

Record AdvancedSearchRequest : Type := mkAdvancedSearchRequest {
  ar_query : option string;
  ar_max_facts : option Z;
  ar_group_ids : option (list string);
  ar_recipe : option string
}.

End Raw.

Module Validate.
Import Pydantic.

(** [max_facts: int = Field(default=10, description=...)], the same
    declaration in the four search DTOs: a default and no bound. *)
Definition max_facts_field : IntField :=
  mkIntField (Some 10) None None None None.

Definition edge_recipes : list string :=
  [ "EDGE_HYBRID_SEARCH_RRF";
    "EDGE_HYBRID_SEARCH_MMR";
    "EDGE_HYBRID_SEARCH_NODE_DISTANCE";
    "EDGE_HYBRID_SEARCH_EPISODE_MENTIONS";
    "EDGE_HYBRID_SEARCH_CROSS_ENCODER" ].

Definition combined_recipes : list string :=
  [ "COMBINED_HYBRID_SEARCH_RRF";
    "COMBINED_HYBRID_SEARCH_MMR";
    "COMBINED_HYBRID_SEARCH_CROSS_ENCODER" ].

Definition SearchQuery (raw : Raw.SearchQuery) : result SearchQuery.t :=
  match validate_required "query" (Raw.sq_query raw) with
  | inl e => inl e
  | inr q =>
      match validate_int "max_facts" max_facts_field (Raw.sq_max_facts raw)
      with
      | inl e => inl e
      | inr m => inr (SearchQuery.mk (Raw.sq_group_ids raw) q m)
      end
  end.

Definition CenteredSearchQuery (raw : Raw.CenteredSearchQuery)
  : result CenteredSearchQuery.t :=
  match validate_required "query" (Raw.cq_query raw) with
  | inl e => inl e
  | inr q =>
      match validate_int "max_facts" max_facts_field (Raw.cq_max_facts raw)
      with
      | inl e => inl e
      | inr m =>
          match validate_required "center_node_uuid"
                  (Raw.cq_center_node_uuid raw) with
          | inl e => inl e
          | inr c =>
              inr (CenteredSearchQuery.mk (Raw.cq_group_ids raw) q m c)
          end
      end
  end.

Definition AdvancedSearchRequest (raw : Raw.AdvancedSearchRequest)
  : result AdvancedSearchRequest.t :=
  match validate_required "query" (Raw.ar_query raw) with
  | inl e => inl e
  | inr q =>
      match validate_int "max_facts" max_facts_field (Raw.ar_max_facts raw)
      with
      | inl e => inl e
      | inr m =>
          match validate_literal "recipe" edge_recipes (Raw.ar_recipe raw)
          with
          | inl e => inl e
          | inr r =>
              inr (AdvancedSearchRequest.mk q m (Raw.ar_group_ids raw) r)
          end
      end
  end.

Definition AdvancedSearchV2Request (raw : Raw.AdvancedSearchRequest)
  : result AdvancedSearchV2Request.t :=
  match validate_required "query" (Raw.ar_query raw) with
  | inl e => inl e
  | inr q =>
      match validate_int "max_facts" max_facts_field (Raw.ar_max_facts raw)
      with
      | inl e => inl e
      | inr m =>
          match validate_literal "recipe" combined_recipes
                  (Raw.ar_recipe raw) with
          | inl e => inl e
          | inr r =>
              inr (AdvancedSearchV2Request.mk q m (Raw.ar_group_ids raw) r)
          end
      end
  end.

End Validate.

(** The graph engine client ([ZepGraphitiDep]) and what the routers import
    from [graphiti_core] and [graph_service.zep_graphiti]. An operation
    runs on the state of the graph and returns or raises; the keyword
    arguments of a call are taken in the order the comment gives. *)
Class Graphiti {DT : DateTime} : Type := {
  engine : Type;
  EntityEdge : Type;
  EntityNode : Type;
  EpisodicNode : Type;
  RecipeBody : Type;
  AttributeValue : Type;
  (* name, episode_body, source, source_description, reference_time,
     group_id *)
  add_episode :
    string -> string -> EpisodeType -> string -> datetime -> string ->
    engine -> result unit * engine;
  delete_group : string -> engine -> result unit * engine;
  clear_data : engine -> result unit * engine;
  build_indices_and_constraints : engine -> result unit * engine;
  (* group_ids, query, num_results, center_node_uuid *)
  search :
    option (list string) -> string -> Z -> option string ->
    engine -> result (list EntityEdge) * engine;
  (* query, group_ids, config; the result carries edges and nodes *)
  _search :
    string -> option (list string) -> SearchConfig RecipeBody ->
    engine -> result (list EntityEdge * list EntityNode) * engine;
  (* group_ids, last_n, reference_time *)
  retrieve_episodes :
    list string -> Z -> datetime ->
    engine -> result (list EpisodicNode) * engine;
  (* the attributes of the module [search_config_recipes], by name *)
  search_config_recipes : string -> option (SearchConfig RecipeBody);
  get_fact_result_from_edge : EntityEdge -> FactResult.t;
  node_uuid : EntityNode -> string;
  node_name : EntityNode -> string;
  node_summary : EntityNode -> option string;
  node_created_at : EntityNode -> datetime;
  (* [Some l] when [labels] is a list or a tuple *)
  node_labels : EntityNode -> option (list string);
  (* outer [None]: no such attribute; inner [None]: the value [None] *)
  node_attributes :
    EntityNode -> option (option (list (string * AttributeValue)));
  attribute_str : AttributeValue -> string
}.

(** The process environment, read once when a router module is loaded. *)
Class Environ : Type := { getenv : string -> option string }.

(** ** The background worker ([class AsyncWorker])

    The worker is an [asyncio.Queue] of jobs and the task that [start]
    created last, which runs [worker()]; a task that an earlier [start]
    created goes on running [worker()] on the same queue, though
    [self.task] names it no more. A task is described by the point where
    its coroutine is suspended, the methods by what they do to the queue
    and to the tasks.
    Jobs are zero-argument coroutine functions; the worker never looks
    inside one, so their type is left open and the way a started job ends
    is an input of the model. *)
Module AsyncWorker.
Section Worker.
Variable Job : Type.

Inductive task_state : Type :=
| Waiting               (* suspended in [await self.queue.get()] *)
| Running (job : Job)   (* suspended in [await job()] *)
| Finished              (* [break] left the loop, [worker()] returned *)
| Failed (e : exn).     (* an exception of a job left [worker()] *)

Record t : Type := Build {
  queue : list Job;              (* oldest job first *)
  task : option task_state;      (* [self.task]; [None] is Python's [None] *)
  others : list task_state       (* the tasks of earlier [start]s, the
                                    latest first *)
}.

(** A worker with no task but the one [self.task] names. *)
Definition mk (queue : list Job) (task : option task_state) : t :=
  Build queue task [].

(** [__init__] *)
Definition init : t := mk [] None.

(** What an observer sees of the jobs. *)
Inductive event : Type :=
| Begin (job : Job)                (* [job()] is called *)
| End_ (job : Job)                 (* [await job()] returned *)
| Raised (job : Job) (e : exn)     (* [await job()] raised [e] *)
| Cancelled (job : Job)            (* [job()] was cancelled in flight *)
| Discarded (job : Job).           (* taken from the queue, not called *)

(** [self.queue.put(job)], as a caller would submit a job: the queue
    is unbounded, so [put] appends and returns. *)
Definition put (job : Job) (w : t) : t :=
  Build (queue w ++ [job]) (task w) (others w).

(** [start]: [self.task = asyncio.create_task(self.worker())], whatever
    [self.task] was. The new task runs up to its first [await]; the task
    that [self.task] named before, if any, is not cancelled and joins
    the others. *)
Definition start (w : t) : t :=
  Build (queue w) (Some Waiting)
    (match task w with
     | Some s => s :: others w
     | None => others w
     end).

(** [worker()] in a task suspended in [await self.queue.get()]: it
    resumes only when the queue holds a job; the oldest one is taken and
    called. *)
Definition resume_get (s : task_state) (q : list Job)
  : option (task_state * list Job * list event) :=
  match s, q with
  | Waiting, job :: rest => Some (Running job, rest, [Begin job])
  | _, _ => None
  end.

(** [worker()] in a task suspended in [await job()], resumed with the
    way the job ended: a return goes round the loop, [CancelledError] is
    caught and breaks the loop, any other exception is not caught and
    ends [worker()]. *)
Definition resume_job (outcome : result unit) (s : task_state)
  : option (task_state * list event) :=
  match s with
  | Running job =>
      match outcome with
      | inr _ => Some (Waiting, [End_ job])
      | inl CancelledError => Some (Finished, [Cancelled job])
      | inl e => Some (Failed e, [Raised job e])
      end
  | _ => None
  end.

(** The task [self.task] takes a job. *)
Definition worker_get (w : t) : option (t * list event) :=
  match task w with
  | Some s =>
      match resume_get s (queue w) with
      | Some (s', q', evs) => Some (Build q' (Some s') (others w), evs)
      | None => None
      end
  | None => None
  end.

(** The job of the task [self.task] ends. *)
Definition worker_job_ended (outcome : result unit) (w : t)
  : option (t * list event) :=
  match task w with
  | Some s =>
      match resume_job outcome s with
      | Some (s', evs) => Some (Build (queue w) (Some s') (others w), evs)
      | None => None
      end
  | None => None
  end.

(** The list [l] with [x] at position [n]. *)
Fixpoint replace_nth {A : Type} (n : nat) (x : A) (l : list A) : list A :=
  match l, n with
  | [], _ => []
  | _ :: rest, O => x :: rest
  | y :: rest, S n' => y :: replace_nth n' x rest
  end.

(** The same two moves for the task at position [n] of the others. *)
Definition other_get (n : nat) (w : t) : option (t * list event) :=
  match nth_error (others w) n with
  | Some s =>
      match resume_get s (queue w) with
      | Some (s', q', evs) =>
          Some (Build q' (task w) (replace_nth n s' (others w)), evs)
      | None => None
      end
  | None => None
  end.

Definition other_job_ended (n : nat) (outcome : result unit) (w : t)
  : option (t * list event) :=
  match nth_error (others w) n with
  | Some s =>
      match resume_job outcome s with
      | Some (s', evs) =>
          Some (Build (queue w) (task w) (replace_nth n s' (others w)), evs)
      | None => None
      end
  | None => None
  end.

(** [self.task.cancel()] and the task's reaction to it: a suspended
    [worker()] gets [CancelledError] at its [await], in [queue.get()]
    or through the running job (which is taken to let it through, as a
    coroutine does that does not catch it), catches it and breaks; a
    task that is already done is left as it is. *)
Definition cancel (s : task_state) : task_state * list event :=
  match s with
  | Waiting => (Finished, [])
  | Running job => (Finished, [Cancelled job])
  | Finished => (Finished, [])
  | Failed e => (Failed e, [])
  end.

(** [await self.task]: returns when the task returned, raises the
    task's exception when it ended with one. *)
Definition await_task (s : task_state) : result unit :=
  match s with
  | Failed e => inl e
  | _ => inr tt
  end.

(** [while not self.queue.empty(): self.queue.get_nowait()]: the
    queue that is left, and the jobs taken from it. *)
Fixpoint drain (q : list Job) : list Job * list event :=
  match q with
  | [] => ([], [])
  | job :: rest =>
      let '(q', evs) := drain rest in (q', Discarded job :: evs)
  end.

(** [stop]: it cancels and awaits [self.task] only. *)
Definition stop (w : t) : result unit * t * list event :=
  match task w with
  | Some s =>
      let '(s', evs) := cancel s in
      match await_task s' with
      | inl e => (inl e, Build (queue w) (Some s') (others w), evs)
      | inr _ =>
          let '(q', dropped) := drain (queue w) in
          (inr tt, Build q' (Some s') (others w), (evs ++ dropped)%list)
      end
  | None =>
      let '(q', dropped) := drain (queue w) in
      (inr tt, Build q' None (others w), dropped)
  end.

(** What can happen next to a worker: a method is called, or one of the
    tasks moves on. *)
Inductive input : Type :=
| DoPut (job : Job)
| DoStart
| DoGet
| DoJobReturns
| DoJobRaises (e : exn)
| DoStop
| DoOtherGet (n : nat)
| DoOtherJobReturns (n : nat)
| DoOtherJobRaises (n : nat) (e : exn).

Definition step (i : input) (w : t) : option (t * list event) :=
  match i with
  | DoPut job => Some (put job w, [])
  | DoStart => Some (start w, [])
  | DoGet => worker_get w
  | DoJobReturns => worker_job_ended (inr tt) w
  | DoJobRaises e => worker_job_ended (inl e) w
  | DoStop => let '(_, w', evs) := stop w in Some (w', evs)
  | DoOtherGet n => other_get n w
  | DoOtherJobReturns n => other_job_ended n (inr tt) w
  | DoOtherJobRaises n e => other_job_ended n (inl e) w
  end.

(** A run: the inputs in order, the events they produce in order. *)
Fixpoint run (inputs : list input) (w : t) : option (t * list event) :=
  match inputs with
  | [] => Some (w, [])
  | i :: rest =>
      match step i w with
      | Some (w1, evs1) =>
          match run rest w1 with
          | Some (w2, evs2) => Some (w2, (evs1 ++ evs2)%list)
          | None => None
          end
      | None => None
      end
  end.

(** The jobs submitted by the inputs, in order. *)
Fixpoint submitted (inputs : list input) : list Job :=
  match inputs with
  | [] => []
  | DoPut job :: rest => job :: submitted rest
  | _ :: rest => submitted rest
  end.

(** The jobs begun in a trace, in order. *)
Fixpoint begun (trace : list event) : list Job :=
  match trace with
  | [] => []
  | Begin job :: rest => job :: begun rest
  | _ :: rest => begun rest
  end.

(** The jobs that returned in a trace, in order. *)
Fixpoint completed (trace : list event) : list Job :=
  match trace with
  | [] => []
  | End_ job :: rest => job :: completed rest
  | _ :: rest => completed rest
  end.

(** The jobs that left the queue in a trace, in order: those begun
    and those discarded. *)
Fixpoint taken (trace : list event) : list Job :=
  match trace with
  | [] => []
  | Begin job :: rest => job :: taken rest
  | Discarded job :: rest => job :: taken rest
  | _ :: rest => taken rest
  end.

(** The jobs discarded in a trace, in order. *)
Fixpoint discarded (trace : list event) : list Job :=
  match trace with
  | [] => []
  | Discarded job :: rest => job :: discarded rest
  | _ :: rest => discarded rest
  end.

(** The number of jobs in flight at the end of a trace, that is begun
    and not ended in any of the three ways, when [n] were in flight at
    its start; [None] when the trace ends a job that was not in
    flight. *)
Fixpoint in_flight_from (n : nat) (trace : list event) : option nat :=
  match trace with
  | [] => Some n
  | Begin _ :: rest => in_flight_from (S n) rest
  | Discarded _ :: rest => in_flight_from n rest
  | _ :: rest =>
      match n with
      | O => None
      | S n' => in_flight_from n' rest
      end
  end.

Definition in_flight (trace : list event) : option nat :=
  in_flight_from 0 trace.

End Worker.

Arguments Waiting {Job}.
Arguments Running {Job} job.
Arguments Finished {Job}.
Arguments Failed {Job} e.
Arguments Build {Job} queue task others.
Arguments mk {Job} queue task.
Arguments queue {Job} w : rename.
Arguments task {Job} w : rename.
Arguments others {Job} w : rename.
Arguments init {Job}.
Arguments Begin {Job} job.
Arguments End_ {Job} job.
Arguments Raised {Job} job e.
Arguments Cancelled {Job} job.
Arguments Discarded {Job} job.
Arguments put {Job} job w.
Arguments start {Job} w.
Arguments resume_get {Job} s q.
Arguments resume_job {Job} outcome s.
Arguments worker_get {Job} w.
Arguments worker_job_ended {Job} outcome w.
Arguments replace_nth {A} n x l.
Arguments other_get {Job} n w.
Arguments other_job_ended {Job} n outcome w.
Arguments cancel {Job} s.
Arguments await_task {Job} s.
Arguments drain {Job} q.
Arguments stop {Job} w.
Arguments DoPut {Job} job.
Arguments DoStart {Job}.
Arguments DoGet {Job}.
Arguments DoJobReturns {Job}.
Arguments DoJobRaises {Job} e.
Arguments DoStop {Job}.
Arguments DoOtherGet {Job} n.
Arguments DoOtherJobReturns {Job} n.
Arguments DoOtherJobRaises {Job} n e.
Arguments step {Job} i w.
Arguments run {Job} inputs w.
Arguments submitted {Job} inputs.
Arguments begun {Job} trace.
Arguments completed {Job} trace.
Arguments taken {Job} trace.
Arguments discarded {Job} trace.
Arguments in_flight_from {Job} n trace.
Arguments in_flight {Job} trace.

End AsyncWorker.

(** ** The life of the worker ([lifespan])

    [lifespan] starts the module's worker, yields while the application
    serves requests, and stops the worker. What happens to the worker in
    between is a list of activities: a caller submits a job, or the
    worker task moves on. No handler calls [start], so nothing in between
    does. *)
Module Lifespan.
Section Life.
Variable Job : Type.

Inductive activity : Type :=
| Submits (job : Job)       (* a job is put on the queue *)
| Takes                     (* the worker takes the next job *)
| Returns                   (* the running job returns *)
| Raises (e : exn).         (* the running job raises [e] *)

Definition input_of (a : activity) : AsyncWorker.input Job :=
  match a with
  | Submits job => AsyncWorker.DoPut job
  | Takes => AsyncWorker.DoGet
  | Returns => AsyncWorker.DoJobReturns
  | Raises e => AsyncWorker.DoJobRaises e
  end.

(** [await async_worker.start(); yield; await async_worker.stop()]: the
    outcome of [stop], the worker that is left and the events of the whole
    life; [None] when the activities are not possible in that order. *)
Definition lifespan (app : list activity) (w : AsyncWorker.t Job)
  : option (result unit * AsyncWorker.t Job * list (AsyncWorker.event Job)) :=
  let w1 := AsyncWorker.start w in
  match AsyncWorker.run (map input_of app) w1 with
  | None => None
  | Some (w2, evs) =>
      let '(r, w3, evs') := AsyncWorker.stop w2 in
      Some (r, w3, (evs ++ evs')%list)
  end.

End Life.

Arguments Submits {Job} job.
Arguments Takes {Job}.
Arguments Returns {Job}.
Arguments Raises {Job} e.
Arguments input_of {Job} a.
Arguments lifespan {Job} app w.

End Lifespan.

(** ** The state a request handler runs in, and the handler monad *)
Module Service.
Section World.
Context {DT : DateTime} {G : Graphiti}.
Variable Job : Type.

(** A call on the graph engine, with its arguments. *)
Inductive call : Type :=
| AddEpisode (name episode_body : string) (source : EpisodeType)
    (source_description : string) (reference_time : datetime)
    (group_id : string)
| DeleteGroup (group_id : string)
| ClearData
| BuildIndicesAndConstraints
| Search (group_ids : option (list string)) (query : string)
    (num_results : Z) (center_node_uuid : option string)
| SearchWithConfig (query : string) (group_ids : option (list string))
    (config : SearchConfig RecipeBody)
| RetrieveEpisodes (group_ids : list string) (last_n : Z)
    (reference_time : datetime).

Record world : Type := mkWorld {
  graph : engine;                     (* the state of the graph *)
  calls : list call;                  (* the engine calls made so far *)
  async_worker : AsyncWorker.t Job;   (* the module's [async_worker] *)
  now : datetime                      (* [datetime.now(timezone.utc)] *)
}.

(** A handler body: it runs in a world, changes it, and returns or
    raises. *)
Definition M (A : Type) : Type := world -> result A * world.

Definition ret {A : Type} (x : A) : M A := fun w => (inr x, w).

Definition raise {A : Type} (e : exn) : M A := fun w => (inl e, w).

Definition bind {A B : Type} (c : M A) (k : A -> M B) : M B :=
  fun w =>
    match c w with
    | (inl e, w') => (inl e, w')
    | (inr x, w') => k x w'
    end.

(** A computation without effect that may raise. *)
Definition lift {A : Type} (r : result A) : M A := fun w => (r, w).

(** [await] of an engine operation: the engine runs it, and the call
    is recorded whether it returns or raises. *)
Definition await {A : Type} (c : call)
  (op : engine -> result A * engine) : M A :=
  fun w =>
    let '(r, g) := op (graph w) in
    (r, mkWorld g (calls w ++ [c])%list (async_worker w) (now w)).

(** [for x in l: body(x)] *)
Fixpoint for_each {A : Type} (l : list A) (body : A -> M unit) : M unit :=
  match l with
  | [] => ret tt
  | x :: rest => bind (body x) (fun _ => for_each rest body)
  end.

Definition utcnow : M datetime := fun w => (inr (now w), w).

End World.

Arguments AddEpisode {DT G}.
Arguments DeleteGroup {DT G}.
Arguments ClearData {DT G}.
Arguments BuildIndicesAndConstraints {DT G}.
Arguments Search {DT G}.
Arguments SearchWithConfig {DT G}.
Arguments RetrieveEpisodes {DT G}.
Arguments mkWorld {DT G Job}.
Arguments graph {DT G Job} w : rename.
Arguments calls {DT G Job} w : rename.
Arguments async_worker {DT G Job} w : rename.
Arguments now {DT G Job} w : rename.
Arguments ret {DT G Job A} x.
Arguments raise {DT G Job A} e.
Arguments bind {DT G Job A B} c k.
Arguments lift {DT G Job A} r.
Arguments await {DT G Job A} c op.
Arguments for_each {DT G Job A} l body.
Arguments utcnow {DT G Job}.

Module Notations.
Notation "x <- c ;; k" := (bind c (fun x => k))
  (at level 61, c at next level, right associativity).
Notation "c ;;; k" := (bind c (fun _ => k))
  (at level 61, right associativity).
End Notations.

End Service.

(** ** [graph_service/routers/ingest.py] *)
Module Ingest.
Import Service Service.Notations.

Section Router.
Context {DT : DateTime} {G : Graphiti} {ENV : Environ}.
Variable Job : Type.

(** [api_token = os.getenv("API_TOKEN")] *)
Definition api_token : option string := getenv "API_TOKEN".

Definition verify_token (authorization : option string) : result unit :=
  match authorization with
  | None => inl (HTTPException 401 "Token ausente ou inválido.")
  | Some a =>
      if String.eqb a "" || negb (Py.startswith a "Bearer ")
      then inl (HTTPException 401 "Token ausente ou inválido.")
      else
        match Py.item (Py.split " " a) 1 with
        | inl e => inl e
        | inr token =>
            if Py.ne_optional token api_token
            then inl (HTTPException 403 "Token não autorizado.")
            else inr tt
        end
  end.

(** The line of one message in [add_conversation]'s f-string. *)
Definition message_line (m : Message.t) : string :=
  Py.str_of_optional (Message.role m) ++ "("
    ++ RoleType_str (Message.role_type m) ++ "): "
    ++ Message.content m ++ " (Timestamp: "
    ++ isoformat (Message.timestamp m) ++ ")".

Definition newline : string := String (ascii_of_nat 10) "".

Definition conversation_text (messages : list Message.t) : string :=
  Py.join newline (map message_line messages).

(** [await graphiti.add_episode(...)] *)
Definition graphiti_add_episode (name episode_body : string)
  (source : EpisodeType) (source_description : string)
  (reference_time : datetime) (group_id : string) : M Job unit :=
  await (AddEpisode name episode_body source source_description
           reference_time group_id)
        (add_episode name episode_body source source_description
           reference_time group_id).

Definition add_conversation (request : AddConversationEpisodeRequest.t)
  : M Job Result.t :=
  let text :=
    conversation_text (AddConversationEpisodeRequest.messages request) in
  graphiti_add_episode
    (AddConversationEpisodeRequest.name request)
    text
    EpisodeType_message
    (AddConversationEpisodeRequest.source_description request)
    (AddConversationEpisodeRequest.reference_time request)
    (AddConversationEpisodeRequest.group_id request) ;;;
  ret (Result.mk "Conversation episode added successfully" true).

Definition add_text_episode (request : AddTextEpisodeRequest.t)
  : M Job Result.t :=
  graphiti_add_episode
    (AddTextEpisodeRequest.name request)
    (AddTextEpisodeRequest.content request)
    EpisodeType_text
    (AddTextEpisodeRequest.source_description request)
    (AddTextEpisodeRequest.reference_time request)
    (AddTextEpisodeRequest.group_id request) ;;;
  ret (Result.mk "Text episode added successfully" true).

(** [dividir_em_partes(texto, limite)] and the default of [limite]. *)
Definition dividir_em_partes (texto : string) (limite : Z)
  : result (list string) :=
  match Py.range 0 (Py.len texto) limite with
  | inl e => inl e
  | inr starts =>
      inr (map (fun i => Py.slice texto i (i + limite)) starts)
  end.

Definition limite_default : Z := 5000.

(** The name of the episode of part [i] (counted from 0). *)
Definition part_name (base : string) (i : Z) : string :=
  base ++ " - Parte " ++ Py.str_of_int (i + 1).

Definition document_message (n : Z) (group_id : string) : string :=
  Py.str_of_int n
    ++ " partes do documento adicionadas com sucesso ao grupo "
    ++ group_id ++ ".".

Definition add_document (request : AddDocumentRequest.t)
  : M Job Result.t :=
  partes <- lift (dividir_em_partes
                    (AddDocumentRequest.content request)
                    limite_default) ;;
  for_each (Py.enumerate partes)
    (fun ip =>
       graphiti_add_episode
         (part_name (AddDocumentRequest.name request) (fst ip))
         (snd ip)
         EpisodeType_text
         (AddDocumentRequest.source_description request)
         (AddDocumentRequest.reference_time request)
         (AddDocumentRequest.group_id request)) ;;;
  ret (Result.mk
         (document_message (Z.of_nat (List.length partes))
            (AddDocumentRequest.group_id request))
         true).

Definition delete_group (group_id : string) : M Job Result.t :=
  await (DeleteGroup group_id) (delete_group group_id) ;;;
  ret (Result.mk "Group deleted" true).

Definition clear : M Job Result.t :=
  await ClearData clear_data ;;;
  await BuildIndicesAndConstraints build_indices_and_constraints ;;;
  ret (Result.mk "Graph cleared" true).

(** The routes of the router, each with its validated payload. *)
Inductive request : Type :=
| POST_conversation (body : AddConversationEpisodeRequest.t)
| POST_text (body : AddTextEpisodeRequest.t)
| POST_document (body : AddDocumentRequest.t)
| DELETE_group (group_id : string)
| POST_clear.

(** The status code a route declares for a handler that returns. *)
Definition status_code (r : request) : Z :=
  match r with
  | POST_conversation _ | POST_text _ | POST_document _ => 201
  | DELETE_group _ | POST_clear => 200
  end.

Definition handler (r : request) : M Job Result.t :=
  match r with
  | POST_conversation body => add_conversation body
  | POST_text body => add_text_episode body
  | POST_document body => add_document body
  | DELETE_group group_id => delete_group group_id
  | POST_clear => clear
  end.

(** [APIRouter(dependencies=[Depends(verify_token)])]: the dependency
    runs first, and the handler runs only when it returned. *)
Definition router (authorization : option string) (r : request)
  : M Job (Z * Result.t) :=
  lift (verify_token authorization) ;;;
  body <- handler r ;;
  ret (status_code r, body).

End Router.
End Ingest.

(** ** [graph_service/routers/retrieve.py] *)
Module Retrieve.
Import Service Service.Notations.

Section Router.
Context {DT : DateTime} {G : Graphiti} {ENV : Environ}.
Variable Job : Type.

(** [api_token = os.getenv("API_TOKEN")] *)
Definition api_token : option string := getenv "API_TOKEN".

Definition verify_token (authorization : option string) : result unit :=
  match authorization with
  | None => inl (HTTPException 401 "Token ausente ou inválido.")
  | Some a =>
      if String.eqb a "" || negb (Py.startswith a "Bearer ")
      then inl (HTTPException 401 "Token ausente ou inválido.")
      else
        match Py.item (Py.split " " a) 1 with
        | inl e => inl e
        | inr token =>
            if Py.ne_optional token api_token
            then inl (HTTPException 403 "Token não autorizado.")
            else inr tt
        end
  end.

(** [getattr(search_config_recipes, name)] *)
Definition getattr_recipe (name : string)
  : result (SearchConfig RecipeBody) :=
  match search_config_recipes name with
  | Some config => inr config
  | None => inl (AttributeError name)
  end.

Definition facts_of (edges : list EntityEdge) : list FactResult.t :=
  map get_fact_result_from_edge edges.

(** [await graphiti._search(...)] *)
Definition graphiti__search (query : string)
  (group_ids : option (list string)) (config : SearchConfig RecipeBody)
  : M Job (list EntityEdge * list EntityNode) :=
  await (SearchWithConfig query group_ids config)
        (_search query group_ids config).

Definition advanced_search (query : AdvancedSearchRequest.t)
  : M Job SearchResults.t :=
  config <- lift (getattr_recipe (AdvancedSearchRequest.recipe query)) ;;
  results <-
    graphiti__search (AdvancedSearchRequest.query query)
      (AdvancedSearchRequest.group_ids query) config ;;
  ret (SearchResults.mk (facts_of (fst results))).

(** The [NodeResult] built from a node of the engine. *)
Definition node_result (node : EntityNode) : NodeResult.t :=
  NodeResult.mk
    (node_uuid node)
    (node_name node)
    (node_summary node)
    match node_labels node with
    | Some labels => labels
    | None => []
    end
    (node_created_at node)
    match node_attributes node with
    | Some (Some ((_ :: _) as attributes)) =>
        Some (map (fun kv => (fst kv, attribute_str (snd kv)))
                attributes)
    | _ => None
    end.

Definition advanced_search_v2 (query : AdvancedSearchV2Request.t)
  : M Job AdvancedSearchV2Response.t :=
  recipe <-
    lift (getattr_recipe (AdvancedSearchV2Request.recipe query)) ;;
  let config := set_limit (AdvancedSearchV2Request.max_facts query)
                  recipe in
  results <-
    graphiti__search (AdvancedSearchV2Request.query query)
      (AdvancedSearchV2Request.group_ids query) config ;;
  ret (AdvancedSearchV2Response.mk
         (facts_of (fst results))
         (map node_result (snd results))).

(** [await graphiti.search(...)] *)
Definition graphiti_search (group_ids : option (list string))
  (query : string) (num_results : Z) (center_node_uuid : option string)
  : M Job (list EntityEdge) :=
  await (Search group_ids query num_results center_node_uuid)
        (search group_ids query num_results center_node_uuid).

Definition search (query : SearchQuery.t) : M Job SearchResults.t :=
  relevant_edges <-
    graphiti_search (SearchQuery.group_ids query)
      (SearchQuery.query query)
      (SearchQuery.max_facts query) None ;;
  ret (SearchResults.mk (facts_of relevant_edges)).

Definition search_centered (query : CenteredSearchQuery.t)
  : M Job SearchResults.t :=
  results <-
    graphiti_search (CenteredSearchQuery.group_ids query)
      (CenteredSearchQuery.query query)
      (CenteredSearchQuery.max_facts query)
      (Some (CenteredSearchQuery.center_node_uuid query)) ;;
  ret (SearchResults.mk (facts_of results)).

Definition get_episodes (group_id : string) (last_n : Z)
  : M Job (list EpisodicNode) :=
  reference_time <- utcnow ;;
  await (RetrieveEpisodes [group_id] last_n reference_time)
        (retrieve_episodes [group_id] last_n reference_time).

(** The routes of the router, each with its raw payload. *)
Inductive request : Type :=
| POST_search (body : Raw.SearchQuery)
| POST_search_centered (body : Raw.CenteredSearchQuery)
| POST_search_advanced (body : Raw.AdvancedSearchRequest)
| POST_search_advanced_v2 (body : Raw.AdvancedSearchRequest)
| GET_episodes (group_id : string) (last_n : Z).

Inductive response : Type :=
| SearchResultsBody (body : SearchResults.t)
| AdvancedSearchV2Body (body : AdvancedSearchV2Response.t)
| EpisodesBody (body : list EpisodicNode).

(** Validation of the payload, then the handler. *)
Definition handler (r : request) : M Job response :=
  match r with
  | POST_search body =>
      query <- lift (Validate.SearchQuery body) ;;
      results <- search query ;;
      ret (SearchResultsBody results)
  | POST_search_centered body =>
      query <- lift (Validate.CenteredSearchQuery body) ;;
      results <- search_centered query ;;
      ret (SearchResultsBody results)
  | POST_search_advanced body =>
      query <- lift (Validate.AdvancedSearchRequest body) ;;
      results <- advanced_search query ;;
      ret (SearchResultsBody results)
  | POST_search_advanced_v2 body =>
      query <- lift (Validate.AdvancedSearchV2Request body) ;;
      results <- advanced_search_v2 query ;;
      ret (AdvancedSearchV2Body results)
  | GET_episodes group_id last_n =>
      episodes <- get_episodes group_id last_n ;;
      ret (EpisodesBody episodes)
  end.

(** [APIRouter(prefix="/retrieve", dependencies=[Depends(verify_token)])]:
    the dependency runs first; every route answers 200. *)
Definition router (authorization : option string) (r : request)
  : M Job (Z * response) :=
  lift (verify_token authorization) ;;;
  body <- handler r ;;
  ret (200, body).

End Router.
End Retrieve.

(** ** A small engine, to run the handlers on

    Timestamps are kept as their ISO text. The graph is the list of the
    episodes stored, oldest first, an edge or a node is the name of an
    episode; the engine refuses an episode without a group, and a search
    returns the first names up to the limit it is given. *)
Module Demo.

#[export] Instance demo_datetime : DateTime :=
  {| datetime := string; isoformat := fun s => s |}.

Definition store (name episode_body : string) (_ : EpisodeType)
  (_ : string) (_ : string) (group_id : string)
  (g : list (string * string)) : result unit * list (string * string) :=
  if String.eqb group_id "" then (inl (EngineError "no group"), g)
  else (inr tt, (g ++ [(name, episode_body)])%list).

Definition names (n : Z) (g : list (string * string)) : list string :=
  firstn (Z.to_nat n) (map fst g).

Definition recipes (name : string) : option (SearchConfig unit) :=
  if existsb (String.eqb name)
       (Validate.edge_recipes ++ Validate.combined_recipes)%list
  then Some (mkSearchConfig 3 tt)
  else None.

Definition fact_of (edge : string) : @FactResult.t demo_datetime :=
  FactResult.mk edge edge edge None None "2024-01-01T00:00:00" None.

#[export] Instance demo_graphiti : Graphiti :=
  {| engine := list (string * string);
     EntityEdge := string;
     EntityNode := string;
     EpisodicNode := string;
     RecipeBody := unit;
     AttributeValue := string;
     add_episode := store;
     delete_group := fun _ g => (inr tt, g);
     clear_data := fun _ => (inr tt, []);
     build_indices_and_constraints := fun g => (inr tt, g);
     search := fun _ _ n _ g => (inr (names n g), g);
     _search := fun _ _ c g => (inr (names (limit c) g, []), g);
     retrieve_episodes := fun _ n _ g => (inr (names n g), g);
     search_config_recipes := recipes;
     get_fact_result_from_edge := fact_of;
     node_uuid := fun n => n;
     node_name := fun n => n;
     node_summary := fun _ => None;
     node_created_at := fun _ => "2024-01-01T00:00:00";
     node_labels := fun _ => Some [];
     node_attributes := fun _ => None;
     attribute_str := fun v => v |}.

#[export] Instance demo_environ : Environ :=
  {| getenv := fun name =>
       if String.eqb name "API_TOKEN" then Some "s3cret" else None |}.

(** An environment without [API_TOKEN], and one whose secret holds a
    space. *)
Definition no_secret : Environ := {| getenv := fun _ => None |}.

Definition spaced_secret : Environ :=
  {| getenv := fun name =>
       if String.eqb name "API_TOKEN" then Some "my secret" else None |}.

(** A fresh world: an empty graph, no call made, the worker of
    [AsyncWorker()] after [start]; jobs are numbered. *)
Definition world0 : Service.world nat :=
  Service.mkWorld [] [] (AsyncWorker.mk [] (Some AsyncWorker.Waiting))
    "2024-06-01T12:00:00+00:00".

Definition text_request : AddTextEpisodeRequest.t :=
  AddTextEpisodeRequest.mk "g1" "n1" "hello" "Text content"
    "2024-06-01T12:00:00".

Definition groupless_request : AddTextEpisodeRequest.t :=
  AddTextEpisodeRequest.mk "" "n1" "hello" "Text content"
    "2024-06-01T12:00:00".

Definition document_request (content : string) : AddDocumentRequest.t :=
  AddDocumentRequest.mk "g1" "Doc" content "Document ingestion"
    "2024-06-01T12:00:00".

Definition messages : list Message.t :=
  [ Message.mk "Hi" None "" user (Some "Ana") "2024-06-01T12:00:00" "";
    Message.mk "Hello" None "" assistant None "2024-06-01T12:00:05" "" ].

(** A message whose content has a line break in it. *)
Definition two_line_message : Message.t :=
  Message.mk ("line one" ++ String (ascii_of_nat 10) "line two") None ""
    user (Some "Ana") "2024-06-01T12:00:00" "".

(** A text of [n] times the letter a. *)
Fixpoint letters (n : nat) : string :=
  match n with
  | O => EmptyString
  | S n' => String "a" (letters n')
  end.

Definition conversation_request : AddConversationEpisodeRequest.t :=
  AddConversationEpisodeRequest.mk "g1" "chat" messages "Conversation"
    "2024-06-01T12:00:10".

End Demo.

(** ** The vocabulary of the properties *)

(** [ceil(a / b)] for a positive [b]. *)
Definition ceil_div (a b : Z) : Z := (a + b - 1) / b.

(** Whether the character [c] occurs in [s]. *)
Fixpoint occurs (c : ascii) (s : string) : bool :=
  match s with
  | EmptyString => false
  | String c' s' => Ascii.eqb c' c || occurs c s'
  end.

(** The text of [s] before the first occurrence of [c], all of [s] when
    there is none. *)
Fixpoint before (c : ascii) (s : string) : string :=
  match s with
  | EmptyString => EmptyString
  | String c' s' => if Ascii.eqb c' c then EmptyString
                    else String c' (before c s')
  end.

(** An [Authorization] header of the form [Bearer <token>], the token
    being what follows ["Bearer "] up to the next space. *)
Definition bearer (authorization : option string) (token : string) : Prop :=
  exists rest : string,
    authorization = Some ("Bearer " ++ rest) /\ token = before " " rest.

Definition unauthenticated : exn :=
  HTTPException 401 "Token ausente ou inválido.".

Definition forbidden : exn :=
  HTTPException 403 "Token não autorizado.".

Section HandlerReadings.
Context {DT : DateTime} {G : Graphiti} {Job : Type}.
Import Service.
Local Open Scope list_scope.

(** The reading of the handlers in which an episode is handed to the
    worker: the handler returns a [Result], has put at least one job on
    the queue of [async_worker], and has not called the engine. *)
Definition submits_jobs (handler : M Job Result.t) (w : world Job) : Prop :=
  let '(r, w') := handler w in
  (exists body, r = inr body)
  /\ (exists jobs,
        jobs <> []
        /\ AsyncWorker.queue (async_worker w')
           = AsyncWorker.queue (async_worker w) ++ jobs)
  /\ calls w' = calls w.

(** The engine calls of a document whose parts are [partes], when the
    name of a part is the base name, [label] and the number of the part
    counted from 1. *)
Definition episodes_of_document (label : string)
  (request : AddDocumentRequest.t) (partes : list string) : list call :=
  map (fun ip =>
         AddEpisode
           (AddDocumentRequest.name request ++ label
              ++ Py.str_of_int (fst ip + 1))%string
           (snd ip)
           EpisodeType_text
           (AddDocumentRequest.source_description request)
           (AddDocumentRequest.reference_time request)
           (AddDocumentRequest.group_id request))
      (Py.enumerate partes).

(** What the engine does with a call, the value of a search left out. *)
Definition engine_does (c : call) (g : engine) : result unit * engine :=
  let unit_of {A : Type} (rg : result A * engine) : result unit * engine :=
    (match fst rg with
     | inl e => inl e
     | inr _ => inr tt
     end, snd rg) in
  match c with
  | AddEpisode name episode_body source source_description reference_time
      group_id =>
      add_episode name episode_body source source_description
        reference_time group_id g
  | DeleteGroup group_id => delete_group group_id g
  | ClearData => clear_data g
  | BuildIndicesAndConstraints => build_indices_and_constraints g
  | Search group_ids query num_results center_node_uuid =>
      unit_of (search group_ids query num_results center_node_uuid g)
  | SearchWithConfig query group_ids config =>
      unit_of (_search query group_ids config g)
  | RetrieveEpisodes group_ids last_n reference_time =>
      unit_of (retrieve_episodes group_ids last_n reference_time g)
  end.

(** The engine given the calls [cs] one after the other, each on the
    graph the one before it left, up to the first one that raises: the
    outcome, the graph that is left, and the calls made, the one that
    raised included. *)
Fixpoint engine_takes (cs : list call) (g : engine)
  : result unit * engine * list call :=
  match cs with
  | [] => (inr tt, g, [])
  | c :: rest =>
      match engine_does c g with
      | (inl e, g') => (inl e, g', [c])
      | (inr _, g') =>
          let '(r, g'', made) := engine_takes rest g' in
          (r, g'', c :: made)
      end
  end.

(** The line of a message as the specification words it: the role, the
    role type in brackets, a colon, the content, and the timestamp in ISO
    format; a message without a role prints [None] for it. *)
Definition rendered_line (m : Message.t) : string :=
  (match Message.role m with
   | Some r => r
   | None => "None"
   end
   ++ "("
   ++ match Message.role_type m with
      | user => "user"
      | assistant => "assistant"
      | system => "system"
      end
   ++ "): " ++ Message.content m
   ++ " (Timestamp: " ++ isoformat (Message.timestamp m) ++ ")")%string.

(** Lines joined by the newline character. *)
Fixpoint joined_lines (lines : list string) : string :=
  match lines with
  | [] => ""
  | [l] => l
  | l :: rest => (l ++ String (ascii_of_nat 10) (joined_lines rest))%string
  end.

(** The reading of C3 in which the text of any messages has one line for
    each of them: cut at the newlines, the text gives the lines of the
    messages. *)
Definition one_line_per_message (messages : list Message.t) : Prop :=
  Py.split (ascii_of_nat 10) (Ingest.conversation_text messages)
  = map rendered_line messages.

(** The reading of [add_document] in which every part goes to the engine
    under the name made with [label]. *)
Definition parts_labelled (label : string)
  (request : AddDocumentRequest.t) (w : world Job) : Prop :=
  exists partes,
    Ingest.dividir_em_partes (AddDocumentRequest.content request)
      Ingest.limite_default = inr partes
    /\ calls (snd (Ingest.add_document Job request w))
       = calls w ++ episodes_of_document label request partes.

(** The reading of C9 in which a request is turned down by validation:
    the route ends with a [ValidationError] and the engine is not
    called. *)
Definition rejected (r : Retrieve.request) (w : world Job) : Prop :=
  exists field,
    fst (Retrieve.handler Job r w) = inl (ValidationError field)
    /\ calls (snd (Retrieve.handler Job r w)) = calls w.

(** [max_facts] when the payload gives [raw]. *)
Definition max_facts_of (raw : option Z) : Z :=
  match raw with
  | Some v => v
  | None => 10
  end.

End HandlerReadings.

Section WorkerReadings.
Context {Job : Type}.
Import AsyncWorker.
Local Open Scope list_scope.
Local Open Scope nat_scope.

(** The number of jobs the task [self.task] is in the middle of. *)
Definition running (w : AsyncWorker.t Job) : nat :=
  match task w with
  | Some (Running _) => 1
  | _ => 0
  end.

(** A task that has left [worker()]: it takes no job any more. *)
Definition ended (s : task_state Job) : bool :=
  match s with
  | Finished | Failed _ => true
  | Waiting | Running _ => false
  end.

(** The worker has one consumer at most: the tasks of earlier [start]s
    have all ended. *)
Definition lone (w : AsyncWorker.t Job) : Prop :=
  forallb ended (others w) = true.

(** [self.task] is no live task: there is none, or it has ended. *)
Definition idle (w : AsyncWorker.t Job) : bool :=
  match task w with
  | Some s => ended s
  | None => true
  end.

(** Along the run of [inputs] from [w], [start] is called only when
    [self.task] is no live task. *)
Fixpoint starts_when_idle (inputs : list (input Job))
  (w : AsyncWorker.t Job) : bool :=
  match inputs with
  | [] => true
  | i :: rest =>
      match i with
      | DoStart => idle w
      | _ => true
      end
      && match step i w with
         | Some (w', _) => starts_when_idle rest w'
         | None => true
         end
  end.

(** At no point of the trace is more than one job in flight. *)
Definition serial (trace : list (event Job)) : Prop :=
  forall t1 t2, trace = t1 ++ t2 ->
    in_flight t1 = Some 0 \/ in_flight t1 = Some 1.

(** When a job begins, the jobs submitted before it are exactly the
    jobs that have left the queue before it. *)
Definition fifo (sub : list Job) (trace : list (event Job)) : Prop :=
  forall t1 job t2, trace = t1 ++ Begin job :: t2 ->
    exists later, sub = taken t1 ++ job :: later.

(** The check behind [serial], from [n] jobs in flight. *)
Fixpoint serial_from (n : nat) (trace : list (event Job)) : bool :=
  (n <=? 1)
  && match trace with
     | [] => true
     | Begin _ :: rest => serial_from (S n) rest
     | Discarded _ :: rest => serial_from n rest
     | _ :: rest =>
         match n with
         | O => false
         | S n' => serial_from n' rest
         end
     end.

Definition is_begin (e : event Job) : bool :=
  match e with
  | Begin _ => true
  | _ => false
  end.

(** The invariant of a run with one consumer at most: the jobs taken and
    the jobs queued are the jobs submitted, in order; the trace agrees
    with the task on the job in flight; the trace is serial and first in,
    first out. *)
Definition consistent (sub : list Job) (trace : list (event Job))
  (w : AsyncWorker.t Job) : Prop :=
  taken trace ++ queue w = sub
  /\ in_flight trace = Some (running w)
  /\ serial trace
  /\ fifo sub trace
  /\ lone w.

(** The reading of C5 in which the loop outlives a failing job: after a
    job of a running worker raises [e], the task waits for the next job
    again. *)
Definition worker_survives (w : AsyncWorker.t Job) (e : exn) : Prop :=
  exists w' evs,
    worker_job_ended (inl e) w = Some (w', evs)
    /\ task w' = Some Waiting.



End WorkerReadings.

Section MoreVocabulary.
Context {DT : DateTime} {G : Graphiti} {Job : Type}.
Import Service.
Local Open Scope list_scope.

(** A handler body that leaves the worker and the clock of the world as
    they are. *)
Definition keeps_worker {A : Type} (c : M Job A) : Prop :=
  forall w : world Job,
    async_worker (snd (c w)) = async_worker w /\ now (snd (c w)) = now w.

(** The error of the payload of a retrieval request, when validation
    finds one. *)
Definition payload_error (r : Retrieve.request) : option exn :=
  match r with
  | Retrieve.POST_search body =>
      match Validate.SearchQuery body with
      | inl e => Some e
      | inr _ => None
      end
  | Retrieve.POST_search_centered body =>
      match Validate.CenteredSearchQuery body with
      | inl e => Some e
      | inr _ => None
      end
  | Retrieve.POST_search_advanced body =>
      match Validate.AdvancedSearchRequest body with
      | inl e => Some e
      | inr _ => None
      end
  | Retrieve.POST_search_advanced_v2 body =>
      match Validate.AdvancedSearchV2Request body with
      | inl e => Some e
      | inr _ => None
      end
  | Retrieve.GET_episodes _ _ => None
  end.


End MoreVocabulary.

(** ** Document chunking *)

Section Chunking.
Local Abbreviation chars := list_ascii_of_string.
Local Open Scope list_scope.

Lemma ceil_div_spec (a b : Z) :
  0 < b -> b * (ceil_div a b - 1) < a <= b * ceil_div a b.
Proof.
  intros Hb. unfold ceil_div.
  pose proof (Z.div_mod (a + b - 1) b ltac:(lia)) as Hdm.
  pose proof (Z.mod_pos_bound (a + b - 1) b Hb) as Hm.
  nia.
Qed.

Lemma chars_length (s : string) :
  List.length (chars s) = String.length s.
Proof. induction s as [|c s IH]; simpl; congruence. Qed.

Lemma chars_append (s1 s2 : string) :
  chars (s1 ++ s2)%string = chars s1 ++ chars s2.
Proof. induction s1 as [|c s1 IH]; simpl; congruence. Qed.

Lemma chars_inj (s1 s2 : string) : chars s1 = chars s2 -> s1 = s2.
Proof.
  intros H.
  rewrite <- (string_of_list_ascii_of_string s1),
          <- (string_of_list_ascii_of_string s2).
  now rewrite H.
Qed.

Lemma chars_substring (s : string) :
  forall n m, chars (substring n m s) = firstn m (skipn n (chars s)).
Proof.
  induction s as [|c s IH]; intros n m.
  - destruct n, m; reflexivity.
  - destruct n as [|n].
    + destruct m as [|m]; simpl; [reflexivity|].
      now rewrite (IH 0%nat m).
    + simpl. apply IH.
Qed.

Lemma chars_join_empty (parts : list string) :
  chars (Py.join "" parts) = List.concat (map chars parts).
Proof.
  induction parts as [|p rest IH]; [reflexivity|].
  destruct rest as [|q rest].
  - simpl. now rewrite app_nil_r.
  - change (Py.join "" (p :: q :: rest))
      with (p ++ "" ++ Py.join "" (q :: rest))%string.
    rewrite chars_append.
    change ("" ++ Py.join "" (q :: rest))%string
      with (Py.join "" (q :: rest)).
    rewrite IH. reflexivity.
Qed.

(** A slice that starts inside or after the text and is [c] long. *)
Lemma chars_slice (s : string) (i c : Z) :
  0 <= i -> 0 <= c ->
  chars (Py.slice s i (i + c))
  = firstn (Z.to_nat c) (skipn (Z.to_nat i) (chars s)).
Proof.
  intros Hi Hc. unfold Py.slice, Py.clamp_index, Py.len.
  rewrite chars_substring.
  pose proof (chars_length s) as Hlen.
  destruct (Z.ltb_spec i 0); [lia|].
  destruct (Z.ltb_spec (i + c) 0); [lia|].
  destruct (Z_le_gt_dec (Z.of_nat (String.length s)) i) as [Hout|Hin].
  - rewrite !skipn_all2 by lia. now rewrite !firstn_nil.
  - replace (Z.to_nat (Z.min i (Z.of_nat (String.length s))))
      with (Z.to_nat i) by lia.
    destruct (Z_le_gt_dec (i + c) (Z.of_nat (String.length s))).
    + f_equal. lia.
    + rewrite !firstn_all2; [reflexivity| |]; rewrite length_skipn; lia.
Qed.

Lemma slice_length (s : string) (i c : Z) :
  0 <= i -> 0 <= c ->
  Py.len (Py.slice s i (i + c)) = Z.max 0 (Z.min c (Py.len s - i)).
Proof.
  intros Hi Hc. unfold Py.len at 1.
  rewrite <- chars_length, chars_slice by assumption.
  rewrite length_firstn, length_skipn, chars_length.
  unfold Py.len. lia.
Qed.

Variable texto : string.
Variable limite : Z.
Hypothesis limite_pos : 0 < limite.

Local Abbreviation part := (fun i => Py.slice texto i (i + limite)).

(** The walk of [range] from [i]: the parts glue back to the text from
    [i] on. *)
Lemma parts_from_concat (fuel : nat) :
  forall i, 0 <= i -> Py.len texto - i <= Z.of_nat fuel ->
    List.concat (map chars (map part (Py.range_up fuel i (Py.len texto) limite)))
    = skipn (Z.to_nat i) (chars texto).
Proof.
  induction fuel as [|fuel IH]; intros i Hi Hfuel; simpl.
  - rewrite skipn_all2; [reflexivity|].
    rewrite chars_length. unfold Py.len in Hfuel. lia.
  - destruct (Z.ltb_spec i (Py.len texto)) as [Hlt|Hge]; simpl.
    + rewrite IH by lia.
      rewrite chars_slice by lia.
      replace (Z.to_nat (i + limite))
        with (Z.to_nat limite + Z.to_nat i)%nat by lia.
      rewrite <- skipn_skipn. apply firstn_skipn.
    + rewrite skipn_all2; [reflexivity|].
      rewrite chars_length. unfold Py.len in Hge. lia.
Qed.

Lemma parts_from_count (fuel : nat) :
  forall i, 0 <= i -> Py.len texto - i <= Z.of_nat fuel ->
    - limite < Py.len texto - i ->
    Z.of_nat (List.length (Py.range_up fuel i (Py.len texto) limite))
    = ceil_div (Py.len texto - i) limite.
Proof.
  unfold ceil_div.
  induction fuel as [|fuel IH]; intros i Hi Hfuel Hlow; simpl.
  - symmetry. apply Z.div_small. lia.
  - destruct (Z.ltb_spec i (Py.len texto)) as [Hlt|Hge]; simpl List.length.
    + rewrite Nat2Z.inj_succ, IH by lia.
      replace (Py.len texto - i + limite - 1)
        with (Py.len texto - (i + limite) + limite - 1 + 1 * limite) by lia.
      rewrite Z.div_add by lia. lia.
    + symmetry. apply Z.div_small. lia.
Qed.

Lemma parts_from_sizes (fuel : nat) :
  forall i, 0 <= i ->
    Forall (fun p => 1 <= Py.len p <= limite)
      (map part (Py.range_up fuel i (Py.len texto) limite)).
Proof.
  induction fuel as [|fuel IH]; intros i Hi; simpl; [constructor|].
  destruct (Z.ltb_spec i (Py.len texto)) as [Hlt|Hge]; simpl;
    [|constructor].
  constructor; [|apply IH; lia].
  rewrite slice_length by lia. lia.
Qed.

(** [dividir_em_partes] for any positive limit: it returns, with
    [ceil(L / limite)] parts, none empty and none longer than the limit,
    which glue back to the text. *)
Lemma dividir_em_partes_spec :
  exists partes,
    Ingest.dividir_em_partes texto limite = inr partes
    /\ Z.of_nat (List.length partes) = ceil_div (Py.len texto) limite
    /\ Forall (fun p => 1 <= Py.len p <= limite) partes
    /\ Py.join "" partes = texto.
Proof.
  unfold Ingest.dividir_em_partes, Py.range.
  destruct (Z.eqb_spec limite 0); [lia|].
  destruct (Z.ltb_spec 0 limite); [|lia].
  eexists; split; [reflexivity|].
  assert (Hlen : 0 <= Py.len texto) by (unfold Py.len; lia).
  repeat split.
  - rewrite length_map, parts_from_count by lia. f_equal. lia.
  - apply parts_from_sizes. lia.
  - apply chars_inj. rewrite chars_join_empty.
    rewrite parts_from_concat by lia. reflexivity.
Qed.

End Chunking.

(** C2. With the default limit of 5000 characters, [dividir_em_partes]
    returns [ceil(L / 5000)] parts for a text of length [L], each with at
    least one and at most 5000 characters, and joining the parts in order
    gives the text back. An empty text gives no part, and [add_document]
    then calls the engine not at all and reports 0 parts. *)
Theorem dividir_em_partes_default
  {DT : DateTime} {G : Graphiti} (Job : Type) :
  (forall texto : string,
      exists partes : list string,
        Ingest.dividir_em_partes texto Ingest.limite_default = inr partes
        /\ Z.of_nat (List.length partes) = ceil_div (Py.len texto) 5000
        /\ Forall (fun p => 1 <= Py.len p <= 5000) partes
        /\ Py.join "" partes = texto)
  /\ Ingest.dividir_em_partes "" Ingest.limite_default = inr []
  /\ (forall (group_id name source_description : string)
        (reference_time : datetime) (w : Service.world Job),
        Ingest.add_document Job
          (AddDocumentRequest.mk group_id name "" source_description
             reference_time) w
        = (inr (Result.mk
                  ("0 partes do documento adicionadas com sucesso ao grupo "
                     ++ group_id ++ ".") true),
           w)).
Proof.
  split; [|split].
  - intros texto. apply dividir_em_partes_spec. reflexivity.
  - reflexivity.
  - intros. reflexivity.
Qed.

Example dividir_em_partes_small :
  Ingest.dividir_em_partes "abcdefg" 3 = inr ["abc"; "def"; "g"].
Proof. reflexivity. Qed.

Example dividir_em_partes_exact :
  Ingest.dividir_em_partes "abcdef" 3 = inr ["abc"; "def"].
Proof. reflexivity. Qed.

Example dividir_em_partes_zero_limit :
  Ingest.dividir_em_partes "abc" 0 = inl ValueError.
Proof. reflexivity. Qed.

Example range_12000 : Py.range 0 12000 5000 = inr [0; 5000; 10000].
Proof. reflexivity. Qed.

Example range_negative_step : Py.range 0 7 (-2) = inr [].
Proof. reflexivity. Qed.

Example slice_clips : Py.slice "abcdefg" 5 10 = "fg".
Proof. reflexivity. Qed.

Example slice_negative : Py.slice "abcdefg" (-3) (-1) = "ef".
Proof. reflexivity. Qed.

Example split_bearer :
  Py.split " " "Bearer abc def" = ["Bearer"; "abc"; "def"].
Proof. reflexivity. Qed.

Example split_double_space : Py.split " " "Bearer  x" = ["Bearer"; ""; "x"].
Proof. reflexivity. Qed.

Example join_commas : Py.join "," ["a"; "b"; "c"] = "a,b,c".
Proof. reflexivity. Qed.

Example str_of_int_12 : Py.str_of_int 12 = "12".
Proof. reflexivity. Qed.

(** ** Conversation flattening *)

Section Flattening.
Variable sep : ascii.

Lemma split_nonempty (s : string) : Py.split sep s <> [].
Proof.
  destruct s as [|c s]; simpl; [discriminate|].
  destruct (Ascii.eqb c sep); [discriminate|].
  destruct (Py.split sep s); discriminate.
Qed.

Lemma split_without_separator (s : string) :
  occurs sep s = false -> Py.split sep s = [s].
Proof.
  induction s as [|c s IH]; simpl; [reflexivity|].
  intros H. apply orb_false_iff in H as [Hc Hs].
  rewrite Hc, (IH Hs). reflexivity.
Qed.

Lemma split_at_separator (s rest : string) :
  occurs sep s = false ->
  Py.split sep (s ++ String sep rest) = s :: Py.split sep rest.
Proof.
  induction s as [|c s IH]; simpl; intros H.
  - now rewrite Ascii.eqb_refl.
  - apply orb_false_iff in H as [Hc Hs].
    rewrite Hc, (IH Hs). reflexivity.
Qed.

(** Splitting undoes joining when no part holds the separator. *)
Lemma split_join (parts : list string) :
  parts <> [] ->
  Forall (fun p => occurs sep p = false) parts ->
  Py.split sep (Py.join (String sep "") parts) = parts.
Proof.
  induction parts as [|p rest IH]; [congruence|].
  intros _ Hall. inversion Hall as [|? ? Hp Hrest]; subst.
  destruct rest as [|q rest].
  - simpl. now apply split_without_separator.
  - change (Py.join (String sep "") (p :: q :: rest))
      with (p ++ String sep (Py.join (String sep "") (q :: rest))).
    rewrite split_at_separator by assumption.
    f_equal. apply IH; [discriminate|assumption].
Qed.

End Flattening.

Lemma message_line_rendered {DT : DateTime} (m : Message.t) :
  Ingest.message_line m = rendered_line m.
Proof.
  unfold Ingest.message_line, rendered_line.
  destruct (Message.role m), (Message.role_type m); reflexivity.
Qed.

Lemma join_newline (lines : list string) :
  Py.join Ingest.newline lines = joined_lines lines.
Proof.
  induction lines as [|l rest IH]; [reflexivity|].
  destruct rest as [|l' rest]; [reflexivity|].
  change (Py.join Ingest.newline (l :: l' :: rest))
    with (l ++ Ingest.newline ++ Py.join Ingest.newline (l' :: rest)).
  rewrite IH. reflexivity.
Qed.

(** C3, as the code has it. [add_conversation] flattens the messages into
    the lines of the messages, in the order of the messages, joined by
    the newline character, the line of a message being
    [<role>(<role_type>): <content> (Timestamp: <timestamp.isoformat()>)];
    when there is a message and no such line holds a newline itself, the
    text cut at the newlines gives exactly these lines, one for each
    message. *)
Theorem conversation_text_lines {DT : DateTime} (messages : list Message.t) :
  Ingest.conversation_text messages
  = joined_lines (map rendered_line messages)
  /\ (messages <> [] ->
      Forall (fun m => occurs (ascii_of_nat 10) (rendered_line m) = false)
        messages ->
      Py.split (ascii_of_nat 10) (Ingest.conversation_text messages)
      = map rendered_line messages
      /\ List.length
           (Py.split (ascii_of_nat 10) (Ingest.conversation_text messages))
         = List.length messages).
Proof.
  assert (Hlines : map Ingest.message_line messages
                   = map rendered_line messages).
  { apply map_ext. intros m. apply message_line_rendered. }
  split.
  - unfold Ingest.conversation_text. now rewrite join_newline, Hlines.
  - intros Hne Hall.
    assert (Hsplit :
      Py.split (ascii_of_nat 10) (Ingest.conversation_text messages)
      = map rendered_line messages).
    { unfold Ingest.conversation_text, Ingest.newline. rewrite Hlines.
      apply split_join.
      - destruct messages; [congruence|discriminate].
      - now apply Forall_map. }
    split; [exact Hsplit|]. now rewrite Hsplit, length_map.
Qed.

Lemma conversation_text_lines_witness :
  Demo.messages <> []
  /\ Forall (fun m => occurs (ascii_of_nat 10) (rendered_line m) = false)
       Demo.messages
  /\ Py.split (ascii_of_nat 10) (Ingest.conversation_text Demo.messages)
     = ["Ana(user): Hi (Timestamp: 2024-06-01T12:00:00)";
        "None(assistant): Hello (Timestamp: 2024-06-01T12:00:05)"]
  /\ List.length
       (Py.split (ascii_of_nat 10) (Ingest.conversation_text Demo.messages))
     = List.length Demo.messages.
Proof.
  assert (Hne : Demo.messages <> []) by discriminate.
  assert (Hall :
    Forall (fun m => occurs (ascii_of_nat 10) (rendered_line m) = false)
      Demo.messages).
  { repeat constructor. }
  split; [exact Hne|]. split; [exact Hall|].
  exact (proj2 (conversation_text_lines Demo.messages) Hne Hall).
Defined.

(** A message whose content has two lines, and no message at all: the
    text of the one message has two lines, the text of no message has
    one, the empty one. The reading of C3 in which every sequence gives
    one line for each message fails at both. *)
Lemma conversation_line_break_in_content :
  let m := Demo.two_line_message in
  Py.split (ascii_of_nat 10) (Ingest.conversation_text [m])
  = ["Ana(user): line one"; "line two (Timestamp: 2024-06-01T12:00:00)"]
  /\ ~ one_line_per_message [m]
  /\ Py.split (ascii_of_nat 10)
       (Ingest.conversation_text (@nil (@Message.t Demo.demo_datetime)))
     = [""]
  /\ ~ one_line_per_message (@nil (@Message.t Demo.demo_datetime)).
Proof.
  intros m. split; [reflexivity|]. split; [|split; [reflexivity|]].
  - intros H. apply (f_equal (@List.length string)) in H.
    discriminate H.
  - intros H. discriminate H.
Qed.

Example conversation_text_demo :
  Ingest.conversation_text Demo.messages
  = "Ana(user): Hi (Timestamp: 2024-06-01T12:00:00)"
      ++ Ingest.newline
      ++ "None(assistant): Hello (Timestamp: 2024-06-01T12:00:05)".
Proof. reflexivity. Qed.

Example add_conversation_demo :
  Service.calls
    (snd (Ingest.add_conversation nat Demo.conversation_request Demo.world0))
  = [Service.AddEpisode (G := Demo.demo_graphiti)
       "chat"
       ("Ana(user): Hi (Timestamp: 2024-06-01T12:00:00)"
          ++ Ingest.newline
          ++ "None(assistant): Hello (Timestamp: 2024-06-01T12:00:05)")
       EpisodeType_message "Conversation" "2024-06-01T12:00:10" "g1"].
Proof. reflexivity. Qed.

Example conversation_text_empty :
  Ingest.conversation_text (@nil (@Message.t Demo.demo_datetime)) = "".
Proof. reflexivity. Qed.

(** ** The authentication gate *)

Section AuthGate.
Context {ENV : Environ}.

Lemma startswith_iff (s p : string) :
  Py.startswith s p = true <-> exists rest, s = p ++ rest.
Proof.
  revert s.
  induction p as [|c p IH]; intros s; simpl.
  - split; [intros _; now exists s | intros _; reflexivity].
  - destruct s as [|c' s].
    + split; [discriminate | intros [rest H]; discriminate].
    + destruct (Ascii.eqb_spec c' c) as [->|Hne]; simpl.
      * rewrite IH. split; intros [rest H]; exists rest; congruence.
      * split; [discriminate | intros [rest H]; congruence].
Qed.

Lemma split_first (c : ascii) (s : string) :
  exists pieces, Py.split c s = before c s :: pieces.
Proof.
  induction s as [|c' s [pieces IH]]; simpl; [now exists []|].
  destruct (Ascii.eqb c' c); [now eexists|].
  rewrite IH. now eexists.
Qed.

Lemma token_of_bearer (rest : string) :
  Py.item (Py.split " " ("Bearer " ++ rest)) 1 = inr (before " " rest).
Proof.
  change ("Bearer " ++ rest) with ("Bearer" ++ String " " rest).
  rewrite split_at_separator by reflexivity.
  destruct (split_first " " rest) as [pieces ->]. reflexivity.
Qed.

(** [verify_token], case by case. *)
Lemma verify_token_bearer (rest : string) :
  Ingest.verify_token (Some ("Bearer " ++ rest))
  = if Py.ne_optional (before " " rest) Ingest.api_token
    then inl forbidden else inr tt.
Proof.
  unfold Ingest.verify_token.
  rewrite token_of_bearer.
  replace (Py.startswith ("Bearer " ++ rest) "Bearer ") with true
    by (symmetry; apply startswith_iff; now exists rest).
  reflexivity.
Qed.

Lemma verify_token_not_bearer (authorization : option string) :
  (forall token, ~ bearer authorization token) ->
  Ingest.verify_token authorization = inl unauthenticated.
Proof.
  intros Hno. unfold Ingest.verify_token.
  destruct authorization as [a|]; [|reflexivity].
  destruct (String.eqb a ""); [reflexivity|].
  destruct (Py.startswith a "Bearer ") eqn:Hsw; [|reflexivity].
  apply startswith_iff in Hsw as [rest ->].
  exfalso. apply (Hno (before " " rest)). now exists rest.
Qed.

Lemma ne_optional_false (a : string) (b : option string) :
  Py.ne_optional a b = false <-> b = Some a.
Proof.
  destruct b as [b|]; simpl.
  - rewrite negb_false_iff, String.eqb_eq. split; congruence.
  - split; discriminate.
Qed.


End AuthGate.

Section AuthGateRoutes.
Context {DT : DateTime} {G : Graphiti} {ENV : Environ}.
Variable Job : Type.

Lemma bearer_or_not (authorization : option string) :
  (exists rest, authorization = Some ("Bearer " ++ rest))
  \/ (forall token, ~ bearer authorization token).
Proof.
  destruct authorization as [a|].
  - destruct (Py.startswith a "Bearer ") eqn:Hsw.
    + left. apply startswith_iff in Hsw as [rest ->]. now exists rest.
    + right. intros token [rest [H _]]. injection H as H.
      assert (Hyes : Py.startswith a "Bearer " = true)
        by (apply startswith_iff; now exists rest).
      rewrite Hyes in Hsw. discriminate.
  - right. intros token [rest [H _]]. discriminate.
Qed.


End AuthGateRoutes.

Example verify_token_missing :
  Ingest.verify_token (ENV := Demo.demo_environ) None = inl unauthenticated.
Proof. reflexivity. Qed.

Example verify_token_basic :
  Ingest.verify_token (ENV := Demo.demo_environ) (Some "Basic s3cret") = inl unauthenticated.
Proof. reflexivity. Qed.

Example verify_token_wrong :
  Ingest.verify_token (ENV := Demo.demo_environ) (Some "Bearer guess") = inl forbidden.
Proof. reflexivity. Qed.

Example verify_token_right :
  Ingest.verify_token (ENV := Demo.demo_environ) (Some "Bearer s3cret") = inr tt.
Proof. reflexivity. Qed.

Example verify_token_trailing_words :
  Ingest.verify_token (ENV := Demo.demo_environ) (Some "Bearer s3cret and more") = inr tt.
Proof. reflexivity. Qed.

(** ** The episode handlers *)

Section EpisodeHandlers.
Context {DT : DateTime} {G : Graphiti}.
Variable Job : Type.
Import Service.
Local Open Scope list_scope.

Lemma for_each_cons {A : Type} (x : A) (rest : list A)
  (body : A -> M Job unit) (w : world Job) :
  for_each (x :: rest) body w
  = match body x w with
    | (inl e, w') => (inl e, w')
    | (inr _, w') => for_each rest body w'
    end.
Proof. reflexivity. Qed.

Lemma await_unfold {A : Type} (c : call)
  (op : engine -> result A * engine) (w : world Job) :
  await c op w
  = (fst (op (graph w)),
     mkWorld (snd (op (graph w))) (calls w ++ [c]) (async_worker w)
       (now w)).
Proof. unfold await. now destruct (op (graph w)). Qed.

(** A loop of engine calls: the calls made are the calls of the first
    [k] elements, all of them when the loop returns; nothing but the
    graph and the record of calls changes; and the loop returns when
    the engine does not raise. *)
Lemma for_each_await {A : Type} (c : A -> call)
  (op : A -> engine -> result unit * engine) (l : list A) :
  forall w : world Job,
    exists k : nat,
      (k <= List.length l)%nat
      /\ calls (snd (for_each l (fun x => await (c x) (op x)) w))
         = calls w ++ map c (firstn k l)
      /\ async_worker (snd (for_each l (fun x => await (c x) (op x)) w))
         = async_worker w
      /\ (forall u,
           fst (for_each l (fun x => await (c x) (op x)) w) = inr u ->
           k = List.length l)
    /\ (forall e,
           fst (for_each l (fun x => await (c x) (op x)) w) = inl e ->
           exists x g, In x l /\ fst (op x g) = inl e)
    /\ ((forall x g, fst (op x g) = inr tt) ->
        fst (for_each l (fun x => await (c x) (op x)) w) = inr tt).
Proof.
induction l as [|x rest IH]; intros w.
- exists 0%nat. simpl. rewrite app_nil_r.
  split; [lia|]. split; [reflexivity|]. split; [reflexivity|].
  split; [reflexivity|]. split; [discriminate|reflexivity].
- rewrite for_each_cons, await_unfold.
  destruct (op x (graph w)) as [[e|[]] g] eqn:Hop; simpl fst; simpl snd.
  + exists 1%nat. simpl.
    split; [lia|]. split; [reflexivity|]. split; [reflexivity|].
    split; [discriminate|]. split.
    * intros e' H. injection H as <-. exists x, (graph w).
      split; [now left | now rewrite Hop].
    * intros Htotal. specialize (Htotal x (graph w)).
      rewrite Hop in Htotal. discriminate.
  + destruct (IH (mkWorld g (calls w ++ [c x]) (async_worker w) (now w)))
      as [k [Hk [Hcalls [Hworker [Hret [Hraise Htotal]]]]]].
    exists (S k). simpl in *.
    split; [lia|]. split.
    { rewrite Hcalls, <- app_assoc. reflexivity. }
    split; [exact Hworker|]. split.
    { intros u H. f_equal. now apply (Hret u). }
    split; [|exact Htotal].
    intros e H. destruct (Hraise e H) as [y [g' [Hin Hop']]].
    exists y, g'. split; [now right | exact Hop'].
Qed.

(** A loop of engine calls is the engine taking the calls one after the
    other: it stops at the first that raises, and raises with it. *)
Lemma for_each_engine_takes {A : Type} (c : A -> call)
  (op : A -> engine -> result unit * engine) (l : list A) :
  (forall x g, op x g = engine_does (c x) g) ->
  forall w : world Job,
    for_each l (fun x => await (c x) (op x)) w
    = let '(r, g, made) := engine_takes (map c l) (graph w) in
      (r, mkWorld g (calls w ++ made) (async_worker w) (now w)).
Proof.
  intros Hop. induction l as [|x rest IH]; intros w.
  - simpl. rewrite app_nil_r. now destruct w.
  - rewrite for_each_cons, await_unfold. simpl map. simpl engine_takes.
    rewrite <- Hop.
    destruct (op x (graph w)) as [[e|[]] g]; simpl fst; simpl snd.
    + reflexivity.
    + rewrite IH. simpl graph. simpl calls.
      destruct (engine_takes (map c rest) g) as [[r g'] made].
      simpl. now rewrite <- app_assoc.
Qed.

(** What the engine has taken: every call when it returns, the calls up
    to the one that raised when it raises. *)
Lemma engine_takes_made (cs : list call) :
  forall g : engine,
    match engine_takes cs g with
    | (inr _, _, made) => made = cs
    | (inl e, _, made) =>
        exists (k : nat) (c : call) (g0 : engine),
          nth_error cs k = Some c
          /\ made = firstn (S k) cs
          /\ fst (engine_does c g0) = inl e
    end.
Proof.
  induction cs as [|c rest IH]; intros g; [reflexivity|].
  simpl engine_takes.
  destruct (engine_does c g) as [[e|u] g'] eqn:Hc.
  - exists 0%nat, c, g. split; [reflexivity|]. split; [reflexivity|].
    now rewrite Hc.
  - specialize (IH g').
    destruct (engine_takes rest g') as [[[e|u'] g''] made].
    + destruct IH as [k [c' [g0 [Hnth [Hmade Hraise]]]]].
      exists (S k), c', g0. split; [exact Hnth|]. split; [|exact Hraise].
      simpl. now rewrite Hmade.
    + now rewrite IH.
Qed.

(** [add_document] is the engine taking the episodes of the parts. *)
Lemma add_document_engine_takes (request : AddDocumentRequest.t)
  (w : world Job) :
  exists partes : list string,
    Ingest.dividir_em_partes (AddDocumentRequest.content request)
      Ingest.limite_default = inr partes
    /\ Ingest.add_document Job request w
       = let '(r, g, made) :=
           engine_takes (episodes_of_document " - Parte " request partes)
             (graph w) in
         (match r with
          | inl e => inl e
          | inr _ =>
              inr (Result.mk
                     (Ingest.document_message
                        (Z.of_nat (List.length partes))
                        (AddDocumentRequest.group_id request))
                     true)
          end,
          mkWorld g (calls w ++ made) (async_worker w) (now w)).
Proof.
  destruct (dividir_em_partes_spec (AddDocumentRequest.content request)
              Ingest.limite_default eq_refl)
    as [partes [Hpartes _]].
  exists partes. split; [exact Hpartes|].
  pose (c := fun ip : Z * string =>
    AddEpisode
      (Ingest.part_name (AddDocumentRequest.name request) (fst ip))
      (snd ip) EpisodeType_text
      (AddDocumentRequest.source_description request)
      (AddDocumentRequest.reference_time request)
      (AddDocumentRequest.group_id request)).
  pose (op := fun ip : Z * string =>
    add_episode
      (Ingest.part_name (AddDocumentRequest.name request) (fst ip))
      (snd ip) EpisodeType_text
      (AddDocumentRequest.source_description request)
      (AddDocumentRequest.reference_time request)
      (AddDocumentRequest.group_id request)).
  assert (Hrun : Ingest.add_document Job request w
    = match for_each (Py.enumerate partes)
              (fun x => await (c x) (op x)) w with
      | (inl e, w') => (inl e, w')
      | (inr _, w') =>
          (inr (Result.mk
                  (Ingest.document_message
                     (Z.of_nat (List.length partes))
                     (AddDocumentRequest.group_id request))
                  true), w')
      end).
  { unfold Ingest.add_document, bind, lift. rewrite Hpartes.
    reflexivity. }
  rewrite Hrun, (for_each_engine_takes c op) by reflexivity.
  change (map c (Py.enumerate partes))
    with (episodes_of_document " - Parte " request partes).
  destruct (engine_takes (episodes_of_document " - Parte " request partes)
              (graph w)) as [[[e|[]] g] made]; reflexivity.
Qed.

Lemma enumerate_length {A : Type} (l : list A) :
  List.length (Py.enumerate l) = List.length l.
Proof.
  unfold Py.enumerate. generalize 0.
  induction l as [|x rest IH]; intros n; simpl; [reflexivity|].
  now rewrite IH.
Qed.

(** What [add_document] does, whatever the engine answers. *)
Lemma add_document_calls (request : AddDocumentRequest.t) (w : world Job) :
  exists (partes : list string) (k : nat),
    Ingest.dividir_em_partes (AddDocumentRequest.content request)
      Ingest.limite_default = inr partes
    /\ (k <= List.length partes)%nat
    /\ calls (snd (Ingest.add_document Job request w))
       = calls w
           ++ firstn k (episodes_of_document " - Parte " request partes)
    /\ async_worker (snd (Ingest.add_document Job request w))
       = async_worker w
    /\ (forall body,
           fst (Ingest.add_document Job request w) = inr body ->
           k = List.length partes
           /\ body = Result.mk
                       (Ingest.document_message
                          (Z.of_nat (List.length partes))
                          (AddDocumentRequest.group_id request))
                       true)
    /\ (forall e,
         fst (Ingest.add_document Job request w) = inl e ->
         exists (n b : string) (g : engine),
           fst (add_episode n b EpisodeType_text
                  (AddDocumentRequest.source_description request)
                  (AddDocumentRequest.reference_time request)
                  (AddDocumentRequest.group_id request) g)
           = inl e)
  /\ ((forall n b s d t g (e : engine),
          fst (add_episode n b s d t g e) = inr tt) ->
      fst (Ingest.add_document Job request w)
      = inr (Result.mk
                 (Ingest.document_message
                    (Z.of_nat (List.length partes))
                    (AddDocumentRequest.group_id request))
                 true)).
Proof.
  destruct (dividir_em_partes_spec (AddDocumentRequest.content request)
              Ingest.limite_default eq_refl)
    as [partes [Hpartes _]].
  pose (c := fun ip : Z * string =>
    AddEpisode
      (Ingest.part_name (AddDocumentRequest.name request) (fst ip))
      (snd ip) EpisodeType_text
      (AddDocumentRequest.source_description request)
      (AddDocumentRequest.reference_time request)
      (AddDocumentRequest.group_id request)).
  pose (op := fun ip : Z * string =>
    add_episode
      (Ingest.part_name (AddDocumentRequest.name request) (fst ip))
      (snd ip) EpisodeType_text
      (AddDocumentRequest.source_description request)
      (AddDocumentRequest.reference_time request)
      (AddDocumentRequest.group_id request)).
  destruct (for_each_await c op (Py.enumerate partes) w)
    as [k [Hk [Hcalls [Hworker [Hret [Hraise Htotal]]]]]].
pose proof (enumerate_length partes) as Hlen.
  assert (Hrun : Ingest.add_document Job request w
    = match for_each (Py.enumerate partes)
              (fun x => await (c x) (op x)) w with
      | (inl e, w') => (inl e, w')
      | (inr _, w') =>
          (inr (Result.mk
                  (Ingest.document_message
                     (Z.of_nat (List.length partes))
                     (AddDocumentRequest.group_id request))
                  true), w')
      end).
  { unfold Ingest.add_document, bind, lift. rewrite Hpartes.
    reflexivity. }
  exists partes, k. rewrite Hrun.
  destruct (for_each (Py.enumerate partes) (fun x => await (c x) (op x)) w)
    as [[e|[]] w'] eqn:Hloop; simpl in *.
  - split; [exact Hpartes|]. split; [now rewrite <- Hlen|]. split.
    { rewrite Hcalls. unfold episodes_of_document. now rewrite firstn_map. }
    split; [exact Hworker|]. split; [intros body H; discriminate|]. split.
  + intros e' H. injection H as <-.
    destruct (Hraise e eq_refl) as [x [g [_ Hop]]].
    now exists (Ingest.part_name (AddDocumentRequest.name request) (fst x)),
      (snd x), g.
  + intros Hgood. exfalso.
    assert (@inl exn unit e = inr tt); [|discriminate].
    apply Htotal. intros x g. apply Hgood.
  - split; [exact Hpartes|]. split; [now rewrite <- Hlen|]. split.
    { rewrite Hcalls. unfold episodes_of_document. now rewrite firstn_map. }
    split; [exact Hworker|]. split.
  { intros body H. split; [|congruence].
    rewrite <- Hlen. now apply (Hret tt). }
  split; [intros e H; discriminate|].
  intros _. reflexivity.
Qed.

(** The name of the part at position [i] (counted from 0). *)
Lemma episodes_of_document_nth (label : string)
  (request : AddDocumentRequest.t) (partes : list string) :
  forall (i : nat) (parte : string),
    nth_error partes i = Some parte ->
    nth_error (episodes_of_document label request partes) i
    = Some (AddEpisode
              (AddDocumentRequest.name request ++ label
                 ++ Py.str_of_int (Z.of_nat i + 1))%string
              parte
              EpisodeType_text
              (AddDocumentRequest.source_description request)
              (AddDocumentRequest.reference_time request)
              (AddDocumentRequest.group_id request)).
Proof.
  unfold episodes_of_document, Py.enumerate.
  assert (H : forall (l : list string) (start : Z) (i : nat) parte,
    nth_error l i = Some parte ->
    nth_error (Py.enumerate_from start l) i
    = Some (start + Z.of_nat i, parte)).
  { induction l as [|p rest IH]; intros start i parte Hnth.
    - destruct i; discriminate.
    - destruct i as [|i]; simpl in *.
      + injection Hnth as ->. f_equal. f_equal. lia.
      + rewrite (IH (start + 1) i parte Hnth). f_equal. f_equal. lia. }
  intros i parte Hnth.
  rewrite nth_error_map, (H partes 0 i parte Hnth). reflexivity.
Qed.

End EpisodeHandlers.

Section EpisodeHandlerClaims.
Context {DT : DateTime} {G : Graphiti}.
Variable Job : Type.
Import Service.
Local Open Scope list_scope.

(** C1, as the code has it. The three episode handlers never touch the
    queue of [async_worker]: each calls the engine's [add_episode]
    itself, once for a text or a conversation and, for a document, once
    per part, in order, each call on the graph the one before it left.
    The handler returns its success [Result] exactly when every one of
    these calls has returned; at the first call that raises, the handler
    raises the same exception and sends no later part. *)
Theorem episode_handlers_call_engine :
  (forall (request : AddTextEpisodeRequest.t) (w : world Job),
      Ingest.add_text_episode Job request w
      = let '(r, g) :=
          add_episode
            (AddTextEpisodeRequest.name request)
            (AddTextEpisodeRequest.content request)
            EpisodeType_text
            (AddTextEpisodeRequest.source_description request)
            (AddTextEpisodeRequest.reference_time request)
            (AddTextEpisodeRequest.group_id request)
            (graph w) in
        (match r with
         | inl e => inl e
         | inr _ => inr (Result.mk "Text episode added successfully" true)
         end,
         mkWorld g
           (calls w
              ++ [AddEpisode
                    (AddTextEpisodeRequest.name request)
                    (AddTextEpisodeRequest.content request)
                    EpisodeType_text
                    (AddTextEpisodeRequest.source_description request)
                    (AddTextEpisodeRequest.reference_time request)
                    (AddTextEpisodeRequest.group_id request)])
           (async_worker w) (now w)))
  /\ (forall (request : AddConversationEpisodeRequest.t) (w : world Job),
         Ingest.add_conversation Job request w
         = let '(r, g) :=
             add_episode
               (AddConversationEpisodeRequest.name request)
               (Ingest.conversation_text
                  (AddConversationEpisodeRequest.messages request))
               EpisodeType_message
               (AddConversationEpisodeRequest.source_description request)
               (AddConversationEpisodeRequest.reference_time request)
               (AddConversationEpisodeRequest.group_id request)
               (graph w) in
           (match r with
            | inl e => inl e
            | inr _ =>
                inr (Result.mk "Conversation episode added successfully"
                       true)
            end,
            mkWorld g
              (calls w
                 ++ [AddEpisode
                       (AddConversationEpisodeRequest.name request)
                       (Ingest.conversation_text
                          (AddConversationEpisodeRequest.messages request))
                       EpisodeType_message
                       (AddConversationEpisodeRequest.source_description
                          request)
                       (AddConversationEpisodeRequest.reference_time
                          request)
                       (AddConversationEpisodeRequest.group_id request)])
              (async_worker w) (now w)))
  /\ (forall (request : AddDocumentRequest.t) (w : world Job),
         exists partes : list string,
           Ingest.dividir_em_partes (AddDocumentRequest.content request)
             Ingest.limite_default = inr partes
           /\ Ingest.add_document Job request w
              = let '(r, g, made) :=
                  engine_takes
                    (episodes_of_document " - Parte " request partes)
                    (graph w) in
                (match r with
                 | inl e => inl e
                 | inr _ =>
                     inr (Result.mk
                            (Ingest.document_message
                               (Z.of_nat (List.length partes))
                               (AddDocumentRequest.group_id request))
                            true)
                 end,
                 mkWorld g (calls w ++ made) (async_worker w) (now w)))
  /\ (forall (cs : list call) (g : engine),
         match engine_takes cs g with
         | (inr _, _, made) => made = cs
         | (inl e, _, made) =>
             exists (k : nat) (c : call) (g0 : engine),
               nth_error cs k = Some c
               /\ made = firstn (S k) cs
               /\ fst (engine_does c g0) = inl e
         end).
Proof.
  split; [|split; [|split]].
  - intros request w.
    unfold Ingest.add_text_episode, Ingest.graphiti_add_episode, bind,
      await, ret.
    destruct (add_episode _ _ _ _ _ _ (graph w)) as [[e|[]] g];
      reflexivity.
  - intros request w.
    unfold Ingest.add_conversation, Ingest.graphiti_add_episode, bind,
      await, ret.
    destruct (add_episode _ _ _ _ _ _ (graph w)) as [[e|[]] g];
      reflexivity.
  - intros request w. apply add_document_engine_takes.
  - intros cs g. apply engine_takes_made.
Qed.

(** C8, as the code has it. The parts of a document go to the engine in
    order, each as a [text] episode whose name is the base name of the
    request followed by [" - Parte "] and the number of the part counted
    from 1, with the request's source description, reference time and
    group; a document with content has at least one part; the parts sent
    are all the parts when [add_document] returns, and it returns when
    the engine does not raise. *)
Theorem add_document_part_names (request : AddDocumentRequest.t)
  (w : world Job) :
  exists (partes : list string) (k : nat),
    Ingest.dividir_em_partes (AddDocumentRequest.content request)
      Ingest.limite_default = inr partes
    /\ (AddDocumentRequest.content request <> "" -> partes <> [])
    /\ (forall (i : nat) (parte : string),
           nth_error partes i = Some parte ->
           nth_error (episodes_of_document " - Parte " request partes) i
           = Some (AddEpisode
                     (AddDocumentRequest.name request ++ " - Parte "
                        ++ Py.str_of_int (Z.of_nat i + 1))%string
                     parte
                     EpisodeType_text
                     (AddDocumentRequest.source_description request)
                     (AddDocumentRequest.reference_time request)
                     (AddDocumentRequest.group_id request)))
    /\ (k <= List.length partes)%nat
    /\ calls (snd (Ingest.add_document Job request w))
       = calls w
           ++ firstn k (episodes_of_document " - Parte " request partes)
    /\ (forall body,
           fst (Ingest.add_document Job request w) = inr body ->
           k = List.length partes)
    /\ ((forall n b s d t g (e : engine),
            fst (add_episode n b s d t g e) = inr tt) ->
        exists body, fst (Ingest.add_document Job request w) = inr body).
Proof.
  destruct (add_document_calls Job request w)
    as [partes [k [Hpartes [Hk [Hcalls [_ [Hret [_ Htotal]]]]]]]].
  exists partes, k.
  split; [exact Hpartes|]. split.
  { intros Hcontent ->.
    destruct (dividir_em_partes_spec (AddDocumentRequest.content request)
                Ingest.limite_default eq_refl)
      as [partes' [Hpartes' [_ [_ Hjoin]]]].
    rewrite Hpartes in Hpartes'. injection Hpartes' as <-.
    apply Hcontent. symmetry. exact Hjoin. }
  split; [apply episodes_of_document_nth|].
  split; [exact Hk|]. split; [exact Hcalls|]. split.
  - intros body H. now apply (Hret body).
  - intros Hgood. eexists. now apply Htotal.
Qed.

End EpisodeHandlerClaims.

(** The text handler on the small engine: the episode is in the graph
    when the handler returns, and the queue is as it was. The reading of
    C1 in which the handler queues a job fails here. *)
Lemma add_text_episode_queues_nothing :
  Ingest.add_text_episode nat Demo.text_request Demo.world0
  = (inr (Result.mk "Text episode added successfully" true),
     Service.mkWorld
       (G := Demo.demo_graphiti)
       [("n1", "hello")]
       [Service.AddEpisode (G := Demo.demo_graphiti)
          "n1" "hello" EpisodeType_text "Text content"
          "2024-06-01T12:00:00" "g1"]
       (AsyncWorker.mk [] (Some AsyncWorker.Waiting))
       "2024-06-01T12:00:00+00:00")
  /\ ~ submits_jobs
         (Ingest.add_text_episode nat Demo.text_request) Demo.world0.
Proof.
  split; [reflexivity|].
  unfold submits_jobs. simpl.
  intros [_ [[jobs [Hne Hq]] _]].
  destruct jobs; [now apply Hne | discriminate].
Qed.

(** A document of 12,000 characters goes to the engine in three parts. *)
Example add_document_12000 :
  fst (Ingest.add_document nat
         (Demo.document_request (Demo.letters (Z.to_nat 12000)))
         Demo.world0)
  = inr (Result.mk
           "3 partes do documento adicionadas com sucesso ao grupo g1."
           true)
  /\ map fst
       (Service.graph
          (snd (Ingest.add_document nat
                  (Demo.document_request (Demo.letters (Z.to_nat 12000)))
                  Demo.world0)))
     = ["Doc - Parte 1"; "Doc - Parte 2"; "Doc - Parte 3"].
Proof. split; vm_compute; reflexivity. Qed.

(** The engine refuses an episode without a group: the handler raises and
    returns no [Result]. *)
Example add_text_episode_engine_error :
  fst (Ingest.add_text_episode nat
         Demo.groupless_request Demo.world0)
  = inl (EngineError "no group").
Proof. reflexivity. Qed.

(** A document of one character on the small engine: its only part is
    named ["Doc - Parte 1"]. The reading of C8 in which the label is
    [" - Part "] fails here. *)
Lemma add_document_label_is_parte :
  Service.calls
    (snd (Ingest.add_document nat (Demo.document_request "x") Demo.world0))
  = [Service.AddEpisode (G := Demo.demo_graphiti)
       "Doc - Parte 1" "x" EpisodeType_text "Document ingestion"
       "2024-06-01T12:00:00" "g1"]
  /\ ~ parts_labelled " - Part " (Demo.document_request "x") Demo.world0.
Proof.
  split; [reflexivity|].
  intros [partes [Hpartes Hcalls]].
  injection Hpartes as <-.
  discriminate Hcalls.
Qed.

(** ** The background worker *)

Section WorkerFacts.
Variable Job : Type.
Import AsyncWorker.
Local Open Scope list_scope.
Local Open Scope nat_scope.

Lemma in_flight_from_app (t1 t2 : list (event Job)) :
  forall n,
    in_flight_from n (t1 ++ t2)
    = match in_flight_from n t1 with
      | Some m => in_flight_from m t2
      | None => None
      end.
Proof.
  induction t1 as [|e t1 IH]; intros n; [reflexivity|].
  destruct e; simpl; try apply IH; destruct n; try reflexivity; apply IH.
Qed.

Lemma taken_app (t1 t2 : list (event Job)) :
  taken (t1 ++ t2) = taken t1 ++ taken t2.
Proof.
  induction t1 as [|e t1 IH]; [reflexivity|].
  destruct e; simpl; now rewrite ?IH.
Qed.

Lemma begun_app (t1 t2 : list (event Job)) :
  begun (t1 ++ t2) = begun t1 ++ begun t2.
Proof.
  induction t1 as [|e t1 IH]; [reflexivity|].
  destruct e; simpl; now rewrite ?IH.
Qed.

Lemma completed_app (t1 t2 : list (event Job)) :
  completed (t1 ++ t2) = completed t1 ++ completed t2.
Proof.
  induction t1 as [|e t1 IH]; [reflexivity|].
  destruct e; simpl; now rewrite ?IH.
Qed.

Lemma drain_all (q : list Job) : drain q = ([], map Discarded q).
Proof.
  induction q as [|job rest IH]; [reflexivity|].
  simpl. now rewrite IH.
Qed.

Lemma discarded_only (q : list Job) :
  taken (map Discarded q) = q
  /\ begun (map Discarded q) = []
  /\ completed (map Discarded q) = []
  /\ discarded (map Discarded q) = q
  /\ forall n, in_flight_from n (map Discarded q) = Some n.
Proof.
  induction q as [|job rest [Ht [Hb [Hc [Hd Hn]]]]]; simpl.
  - repeat split.
  - rewrite Ht, Hd. repeat split; assumption.
Qed.

Lemma no_begin_discarded (q : list Job) :
  existsb is_begin (map Discarded q) = false.
Proof. induction q; simpl; auto. Qed.

Lemma serial_from_discarded (q : list Job) (n : nat) :
  n <= 1 -> serial_from n (map Discarded q) = true.
Proof.
  intros Hn. induction q as [|job rest IH]; simpl.
  - apply andb_true_iff. split; [now apply Nat.leb_le|reflexivity].
  - apply andb_true_iff. split; [now apply Nat.leb_le|exact IH].
Qed.

(** The check is right: every prefix has at most one job in flight. *)
Lemma serial_from_prefix (t1 t2 : list (event Job)) :
  forall n, serial_from n (t1 ++ t2) = true ->
    in_flight_from n t1 = Some 0 \/ in_flight_from n t1 = Some 1.
Proof.
  induction t1 as [|e t1 IH]; intros n H.
  - simpl. destruct (t2) as [|e t2']; simpl in H;
      apply andb_true_iff in H as [Hn _]; apply Nat.leb_le in Hn;
      destruct n as [|[|n]]; auto; lia.
  - simpl in H. apply andb_true_iff in H as [Hn H].
    destruct e; simpl; try (now apply IH);
      destruct n; try discriminate; now apply IH.
Qed.

Lemma serial_app (trace evs : list (event Job)) (n : nat) :
  serial trace -> in_flight trace = Some n ->
  serial_from n evs = true ->
  serial (trace ++ evs).
Proof.
  intros Hs Hn Hevs t1 t2 Heq.
  apply app_eq_app in Heq as [l [[-> ->]|[-> ->]]].
  - now apply (Hs t1 l).
  - unfold in_flight. rewrite in_flight_from_app.
    unfold in_flight in Hn. rewrite Hn.
    now apply (serial_from_prefix l t2).
Qed.

(** A split at a [Begin] of a trace extended by events without one lies
    in the trace. *)
Lemma split_before (trace evs t1 t2 : list (event Job)) (job : Job) :
  existsb is_begin evs = false ->
  trace ++ evs = t1 ++ Begin job :: t2 ->
  exists t2', trace = t1 ++ Begin job :: t2'.
Proof.
  intros Hnone Heq.
  apply app_eq_app in Heq as [l [[-> Hl]|[-> Hl]]].
  - destruct l as [|e l].
    + exfalso. simpl in Hl. subst evs. discriminate.
    + injection Hl as <- ->. now exists l.
  - exfalso.
    assert (Hin : existsb is_begin evs = true).
    { rewrite Hl, existsb_app. simpl. now rewrite orb_true_r. }
    congruence.
Qed.

Lemma fifo_app (sub more : list Job) (trace evs : list (event Job)) :
  fifo sub trace -> existsb is_begin evs = false ->
  fifo (sub ++ more) (trace ++ evs).
Proof.
  intros Hf Hnone t1 job t2 Heq.
  apply split_before in Heq as [t2' Heq]; auto.
  destruct (Hf t1 job t2' Heq) as [later ->].
  exists (later ++ more). now rewrite <- app_assoc.
Qed.

Lemma fifo_begin (sub rest : list Job) (trace : list (event Job))
  (job : Job) :
  fifo sub trace -> sub = taken trace ++ job :: rest ->
  fifo sub (trace ++ [Begin job]).
Proof.
  intros Hf Hsub t1 job' t2 Heq.
  apply app_eq_app in Heq as [l [[-> Hl]|[-> Hl]]].
  - destruct l as [|e l].
    + simpl in Hl. injection Hl as -> ->.
      rewrite app_nil_r in Hsub. now exists rest.
    + injection Hl as <- ->. now apply (Hf t1 job' l).
  - destruct l as [|e l].
    + simpl in Hl. injection Hl as -> <-.
      rewrite app_nil_r. now exists rest.
    + injection Hl as _ Hl. destruct l; discriminate.
Qed.

(** What [stop] does, by the state of the task. *)
Lemma stop_cases (w : AsyncWorker.t Job) :
  stop w
  = match task w with
    | Some (Failed e) =>
        (inl e, Build (queue w) (Some (Failed e)) (others w), [])
    | Some (Running job) =>
        (inr tt, Build [] (Some Finished) (others w),
         Cancelled job :: map Discarded (queue w))
    | Some _ =>
        (inr tt, Build [] (Some Finished) (others w),
         map Discarded (queue w))
    | None => (inr tt, Build [] None (others w), map Discarded (queue w))
    end.
Proof.
  unfold stop. rewrite drain_all.
  destruct (task w) as [[| | |]|]; reflexivity.
Qed.

(** With one consumer at most, none of the other tasks can move. *)
Lemma lone_nth (w : AsyncWorker.t Job) (n : nat) (s : task_state Job) :
  lone w -> nth_error (others w) n = Some s -> ended s = true.
Proof.
  intros Hlone Hnth. unfold lone in Hlone.
  rewrite forallb_forall in Hlone. apply Hlone.
  now apply nth_error_In with n.
Qed.

Lemma lone_other_get (w : AsyncWorker.t Job) (n : nat) :
  lone w -> other_get n w = None.
Proof.
  intros Hlone. unfold other_get.
  destruct (nth_error (others w) n) as [s|] eqn:Hnth; [|reflexivity].
  apply (lone_nth w n s Hlone) in Hnth.
  destruct s; try discriminate; reflexivity.
Qed.

Lemma lone_other_job_ended (w : AsyncWorker.t Job) (n : nat)
  (outcome : result unit) :
  lone w -> other_job_ended n outcome w = None.
Proof.
  intros Hlone. unfold other_job_ended.
  destruct (nth_error (others w) n) as [s|] eqn:Hnth; [|reflexivity].
  apply (lone_nth w n s Hlone) in Hnth.
  destruct s; try discriminate; reflexivity.
Qed.

(** What the two moves of [self.task] do. *)
Lemma worker_get_cases (w : AsyncWorker.t Job) :
  worker_get w
  = match task w, queue w with
    | Some Waiting, job :: rest =>
        Some (Build rest (Some (Running job)) (others w), [Begin job])
    | _, _ => None
    end.
Proof.
  unfold worker_get, resume_get.
  destruct (task w) as [[| | |]|]; try reflexivity.
  destruct (queue w); reflexivity.
Qed.

Lemma worker_job_ended_cases (outcome : result unit)
  (w : AsyncWorker.t Job) :
  worker_job_ended outcome w
  = match task w with
    | Some (Running job) =>
        match outcome with
        | inr _ =>
            Some (Build (queue w) (Some Waiting) (others w), [End_ job])
        | inl CancelledError =>
            Some (Build (queue w) (Some Finished) (others w),
                  [Cancelled job])
        | inl e =>
            Some (Build (queue w) (Some (Failed e)) (others w),
                  [Raised job e])
        end
    | _ => None
    end.
Proof.
  unfold worker_job_ended, resume_job.
  destruct (task w) as [[| | |]|]; try reflexivity.
  destruct outcome as [e|u]; [destruct e|]; reflexivity.
Qed.


(** A step that begins no job. *)
Lemma consistent_extend (sub more : list Job)
  (trace evs : list (event Job)) (w w' : AsyncWorker.t Job) :
  consistent sub trace w ->
  existsb is_begin evs = false ->
  serial_from (running w) evs = true ->
  in_flight_from (running w) evs = Some (running w') ->
  taken evs ++ queue w' = queue w ++ more ->
  lone w' ->
  consistent (sub ++ more) (trace ++ evs) w'.
Proof.
  intros [Hq [Hn [Hs [Hf _]]]] Hnone Hserial Hflight Htaken Hlone.
  split; [|split; [|split; [|split]]].
  - rewrite taken_app, <- app_assoc, Htaken, app_assoc. now rewrite Hq.
  - unfold in_flight in *. now rewrite in_flight_from_app, Hn.
  - now apply (serial_app trace evs (running w)).
  - now apply fifo_app.
  - exact Hlone.
Qed.

Lemma consistent_step (i : input Job) (sub : list Job)
  (trace evs : list (event Job)) (w w' : AsyncWorker.t Job) :
  consistent sub trace w ->
  (i = DoStart -> idle w = true) ->
  step i w = Some (w', evs) ->
  consistent (sub ++ submitted [i]) (trace ++ evs) w'.
Proof.
  intros Hc Hidle Hstep.
  assert (Hlone : lone w) by apply Hc.
  destruct i as [job| | | |e| |n|n|n e]; simpl in Hstep; simpl submitted.
  - (* put *)
    injection Hstep as <- <-.
    apply consistent_extend with (w := w); auto; unfold running; simpl.
    destruct (task w) as [[| | |]|]; reflexivity.
  - (* start *)
    specialize (Hidle eq_refl). unfold idle in Hidle.
    injection Hstep as <- <-.
    apply consistent_extend with (w := w); auto; unfold running, lone;
      simpl; destruct (task w) as [[| | |]|]; try discriminate;
      simpl; auto using app_nil_r.
  - (* get *)
    destruct Hc as [Hq [Hn [Hs [Hf _]]]].
    rewrite worker_get_cases in Hstep. unfold running in Hn.
    destruct (task w) as [[| | |]|] eqn:Htask; try discriminate.
    destruct (queue w) as [|job rest] eqn:Hqueue; [discriminate|].
    injection Hstep as <- <-. rewrite app_nil_r.
    split; [|split; [|split; [|split]]]; simpl.
    + rewrite taken_app. simpl. now rewrite <- app_assoc.
    + unfold in_flight in *. rewrite in_flight_from_app, Hn. reflexivity.
    + apply (serial_app trace _ 0); auto.
    + apply (fifo_begin sub rest); auto.
    + exact Hlone.
  - (* the job returns *)
    rewrite worker_job_ended_cases in Hstep.
    destruct (task w) as [[|job| |]|] eqn:Htask; try discriminate.
    injection Hstep as <- <-.
    apply consistent_extend with (w := w); auto; unfold running; simpl;
      rewrite ?Htask; auto.
    now rewrite app_nil_r.
  - (* the job raises *)
    rewrite worker_job_ended_cases in Hstep.
    destruct (task w) as [[|job| |]|] eqn:Htask; try discriminate.
    destruct e; injection Hstep as <- <-;
      (apply consistent_extend with (w := w); auto; unfold running; simpl;
       rewrite ?Htask; auto; now rewrite app_nil_r).
  - (* stop *)
    rewrite stop_cases in Hstep.
    destruct (discarded_only (queue w)) as [Ht [Hb [_ [_ Hfl]]]].
    pose proof (no_begin_discarded (queue w)) as Hnone.
    destruct (task w) as [[|job| |e]|] eqn:Htask;
      injection Hstep as <- <-;
      (apply consistent_extend with (w := w); auto; unfold running; simpl;
       rewrite ?Htask, ?Ht, ?Hfl, ?app_nil_r; auto;
       apply serial_from_discarded; lia).
  - (* another task takes a job *)
    rewrite lone_other_get in Hstep by assumption. discriminate.
  - (* the job of another task returns *)
    rewrite lone_other_job_ended in Hstep by assumption. discriminate.
  - (* the job of another task raises *)
    rewrite lone_other_job_ended in Hstep by assumption. discriminate.
Qed.

(** The invariant along a run in which [start] is called only on a
    worker without a live task. *)
Lemma consistent_run (inputs : list (input Job)) :
  forall (sub : list Job) (trace evs : list (event Job))
    (w w' : AsyncWorker.t Job),
    consistent sub trace w ->
    starts_when_idle inputs w = true ->
    run inputs w = Some (w', evs) ->
    consistent (sub ++ submitted inputs) (trace ++ evs) w'.
Proof.
  induction inputs as [|i rest IH];
    intros sub trace evs w w' Hc Hstarts Hrun.
  - simpl in Hrun. injection Hrun as <- <-. now rewrite !app_nil_r.
  - simpl in Hrun, Hstarts.
    apply andb_true_iff in Hstarts as [Hidle Hstarts].
    destruct (step i w) as [[w1 evs1]|] eqn:Hstep; [|discriminate].
    destruct (run rest w1) as [[w2 evs2]|] eqn:Hrest; [|discriminate].
    injection Hrun as <- <-.
    assert (Hi : i = DoStart -> idle w = true)
      by (intros ->; exact Hidle).
    pose proof (consistent_step i sub trace evs1 w w1 Hc Hi Hstep) as Hc1.
    pose proof (IH _ _ _ _ _ Hc1 Hstarts Hrest) as Hc2.
    rewrite <- !app_assoc in Hc2.
    replace (submitted (i :: rest)) with (submitted [i] ++ submitted rest)
      by (destruct i; reflexivity).
    exact Hc2.
Qed.

(** A run that never calls [start] calls it only when it may. *)
Lemma no_start_starts_when_idle (inputs : list (input Job)) :
  forall w : AsyncWorker.t Job,
    ~ In DoStart inputs -> starts_when_idle inputs w = true.
Proof.
  induction inputs as [|i rest IH]; intros w Hno; [reflexivity|].
  simpl. apply andb_true_iff. split.
  - destruct i; try reflexivity. exfalso. apply Hno. now left.
  - destruct (step i w) as [[w1 evs1]|]; [|reflexivity].
    apply IH. intros Hin. apply Hno. now right.
Qed.

(** A worker without a live task begins no job until [start] is called:
    the queue grows by what is submitted, or is emptied by [stop]. *)
Lemma idle_worker_begins_nothing (inputs : list (input Job)) :
  forall (w w' : AsyncWorker.t Job) (evs : list (event Job)),
    idle w = true -> lone w ->
    ~ In DoStart inputs ->
    run inputs w = Some (w', evs) ->
    begun evs = [] /\ completed evs = [] /\ task w' = task w
    /\ others w' = others w.
Proof.
  induction inputs as [|i rest IH]; intros w w' evs Hidle Hlone Hno Hrun.
  - simpl in Hrun. injection Hrun as <- <-. auto.
  - simpl in Hrun.
    destruct (step i w) as [[w1 evs1]|] eqn:Hstep; [|discriminate].
    destruct (run rest w1) as [[w2 evs2]|] eqn:Hrest; [|discriminate].
    injection Hrun as <- <-.
    assert (H1 : begun evs1 = [] /\ completed evs1 = []
                 /\ task w1 = task w /\ others w1 = others w).
    { unfold idle in Hidle.
      destruct i as [job| | | |e| |n|n|n e]; simpl in Hstep.
      - injection Hstep as <- <-. auto.
      - exfalso. apply Hno. now left.
      - rewrite worker_get_cases in Hstep.
        destruct (task w) as [[| | |]|]; discriminate.
      - rewrite worker_job_ended_cases in Hstep.
        destruct (task w) as [[| | |]|]; discriminate.
      - rewrite worker_job_ended_cases in Hstep.
        destruct (task w) as [[| | |]|]; discriminate.
      - rewrite stop_cases in Hstep.
        destruct (discarded_only (queue w)) as [_ [Hb [Hc _]]].
        destruct (task w) as [[| | |]|]; try discriminate;
          injection Hstep as <- <-; simpl; auto.
      - rewrite lone_other_get in Hstep by assumption. discriminate.
      - rewrite lone_other_job_ended in Hstep by assumption. discriminate.
      - rewrite lone_other_job_ended in Hstep by assumption.
        discriminate. }
    destruct H1 as [Hb1 [Hc1 [Ht1 Ho1]]].
    assert (Hidle1 : idle w1 = true) by (unfold idle; now rewrite Ht1).
    assert (Hlone1 : lone w1) by (unfold lone; now rewrite Ho1).
    assert (Hno1 : ~ In DoStart rest)
      by (intros Hin; apply Hno; now right).
    destruct (IH w1 w2 evs2 Hidle1 Hlone1 Hno1 Hrest)
      as [Hb2 [Hc2 [Ht2 Ho2]]].
    rewrite begun_app, completed_app, Hb1, Hb2, Hc1, Hc2, Ht2, Ht1, Ho2, Ho1.
    auto.
Qed.

Lemma run_app (i1 i2 : list (input Job)) :
  forall w : AsyncWorker.t Job,
    run (i1 ++ i2) w
    = match run i1 w with
      | Some (w1, evs1) =>
          match run i2 w1 with
          | Some (w2, evs2) => Some (w2, evs1 ++ evs2)
          | None => None
          end
      | None => None
      end.
Proof.
  induction i1 as [|i rest IH]; intros w; simpl.
  - destruct (run i2 w) as [[w2 evs2]|]; reflexivity.
  - destruct (step i w) as [[w1 evs1]|]; [|reflexivity].
    rewrite IH.
    destruct (run rest w1) as [[w2 evs2]|]; [|reflexivity].
    destruct (run i2 w2) as [[w3 evs3]|]; [|reflexivity].
    now rewrite app_assoc.
Qed.

Lemma run_puts (jobs : list Job) :
  forall (q : list Job) (s : option (task_state Job)),
    run (map DoPut jobs) (mk q s) = Some (mk (q ++ jobs) s, []).
Proof.
  induction jobs as [|job rest IH]; intros q s; simpl.
  - now rewrite app_nil_r.
  - unfold put. simpl.
    change (Build (q ++ [job]) s []) with (mk (q ++ [job]) s).
    rewrite IH, <- app_assoc. reflexivity.
Qed.

Lemma run_jobs (jobs : list Job) :
  run (flat_map (fun _ => [DoGet; DoJobReturns]) jobs)
    (mk jobs (Some Waiting))
  = Some (mk [] (Some Waiting),
          flat_map (fun job => [Begin job; End_ job]) jobs).
Proof.
  induction jobs as [|job rest IH]; [reflexivity|].
  simpl in *. unfold mk in *. simpl. now rewrite IH.
Qed.

(** The worker does its work: started, given any jobs, and left to run
    while every job returns, it runs all of them to the end, one after
    the other in the order of submission, and waits with an empty queue. *)
Lemma worker_runs_all_in_order (jobs : list Job) :
  run (DoStart :: map DoPut jobs
         ++ flat_map (fun _ => [DoGet; DoJobReturns]) jobs)
    init
  = Some (mk [] (Some Waiting),
          flat_map (fun job => [Begin job; End_ job]) jobs).
Proof.
  pose proof (run_app (map DoPut jobs)
                (flat_map (fun _ => [DoGet; DoJobReturns]) jobs)
                (mk [] (Some Waiting))) as Hrun.
  rewrite run_puts in Hrun. simpl app in Hrun. rewrite run_jobs in Hrun.
  simpl. unfold start. simpl.
  change (Build [] (Some Waiting) []) with (mk (Job := Job) [] (Some Waiting)).
  now rewrite Hrun.
Qed.

End WorkerFacts.

Section WorkerClaims.
Variable Job : Type.
Import AsyncWorker.
Local Open Scope list_scope.
Local Open Scope nat_scope.


(** C5, as the code has it. When the running job of a worker with no
    other live task raises an exception other than [CancelledError], the
    exception leaves [worker()] and ends the task: the queue is left as
    it is; until [start] is called again no job begins or completes, the
    jobs queued stay queued behind the ones submitted later, and the task
    stays ended with the exception; and the exception shows up only when
    [stop] awaits the task, which raises it and leaves the queue
    alone. *)
Theorem job_failure_ends_worker (w : AsyncWorker.t Job) (job : Job)
  (e : exn) :
  task w = Some (Running job) ->
  e <> CancelledError ->
  lone w ->
  let w' := Build (queue w) (Some (Failed e)) (others w) in
  worker_job_ended (inl e) w = Some (w', [Raised job e])
  /\ (forall inputs w'' evs,
         ~ In DoStart inputs ->
         run inputs w' = Some (w'', evs) ->
         begun evs = [] /\ completed evs = []
         /\ task w'' = Some (Failed e))
  /\ stop w' = (inl e, w', []).
Proof.
  intros Htask Hne Hlone w'. split; [|split].
  - rewrite worker_job_ended_cases, Htask.
    destruct e; try reflexivity. congruence.
  - intros inputs w'' evs Hno Hrun.
    destruct (idle_worker_begins_nothing Job inputs w' w'' evs) as
      [Hb [Hc [Ht _]]]; auto.
  - reflexivity.
Qed.


End WorkerClaims.



(** A worker whose first job raises [ValueError] while a second job is
    queued: the task ends with the exception and the second job cannot be
    taken. The reading of C5 in which the loop goes on fails here. *)
Lemma job_failure_stops_the_loop :
  AsyncWorker.run
    [AsyncWorker.DoStart; AsyncWorker.DoPut 1%nat; AsyncWorker.DoPut 2%nat;
     AsyncWorker.DoGet; AsyncWorker.DoJobRaises ValueError]
    AsyncWorker.init
  = Some (AsyncWorker.mk [2%nat] (Some (AsyncWorker.Failed ValueError)),
          [AsyncWorker.Begin 1%nat; AsyncWorker.Raised 1%nat ValueError])
  /\ AsyncWorker.worker_get
       (AsyncWorker.mk [2%nat] (Some (AsyncWorker.Failed ValueError)))
     = None
  /\ ~ worker_survives
         (AsyncWorker.mk [2%nat] (Some (AsyncWorker.Running 1%nat)))
         ValueError.
Proof.
  split; [reflexivity|]. split; [reflexivity|].
  intros [w' [evs [Hstep Hwait]]].
  injection Hstep as <- _. discriminate Hwait.
Qed.

Lemma job_failure_ends_worker_witness :
  let w := AsyncWorker.mk [2%nat] (Some (AsyncWorker.Running 1%nat)) in
  let w' := AsyncWorker.mk [2%nat] (Some (AsyncWorker.Failed ValueError)) in
  AsyncWorker.task w = Some (AsyncWorker.Running 1%nat)
  /\ ValueError <> CancelledError
  /\ lone w
  /\ (AsyncWorker.worker_job_ended (inl ValueError) w
      = Some (w', [AsyncWorker.Raised 1%nat ValueError])
      /\ (forall inputs w'' evs,
             ~ In AsyncWorker.DoStart inputs ->
             AsyncWorker.run inputs w' = Some (w'', evs) ->
             AsyncWorker.begun evs = [] /\ AsyncWorker.completed evs = []
             /\ AsyncWorker.task w'' = Some (AsyncWorker.Failed ValueError))
      /\ AsyncWorker.stop w' = (inl ValueError, w', [])).
Proof.
  intros w w'.
  split; [reflexivity|]. split; [discriminate|]. split; [reflexivity|].
  apply (job_failure_ends_worker nat w 1%nat ValueError);
    [reflexivity|discriminate|reflexivity].
Defined.



Example stop_running_worker :
  AsyncWorker.stop (AsyncWorker.mk [2%nat] (Some (AsyncWorker.Running 1%nat)))
  = (inr tt, AsyncWorker.mk [] (Some AsyncWorker.Finished),
     [AsyncWorker.Cancelled 1%nat; AsyncWorker.Discarded 2%nat]).
Proof. reflexivity. Qed.

(** ** The search requests *)

Section SearchClaims.
Context {DT : DateTime} {G : Graphiti}.
Variable Job : Type.
Import Service.
Local Open Scope list_scope.

Lemma validate_max_facts (raw : option Z) :
  Pydantic.validate_int "max_facts" Validate.max_facts_field raw
  = inr (max_facts_of raw).
Proof. destruct raw; reflexivity. Qed.

(** C9, as the code has it. The four search DTOs declare [max_facts]
    with a default of 10 and no bound: validation accepts every integer,
    zero and the negative ones included, and gives 10 when the field is
    omitted; the plain and the centered search then hand the value to
    the engine as [num_results]. *)
Theorem max_facts_unconstrained :
  (forall group_ids query raw,
      Validate.SearchQuery (Raw.mkSearchQuery group_ids (Some query) raw)
      = inr (SearchQuery.mk group_ids query (max_facts_of raw)))
  /\ (forall group_ids query raw center,
         Validate.CenteredSearchQuery
           (Raw.mkCenteredSearchQuery group_ids (Some query) raw
              (Some center))
         = inr (CenteredSearchQuery.mk group_ids query (max_facts_of raw)
                  center))
  /\ Forall (fun recipe =>
       forall query raw group_ids,
         Validate.AdvancedSearchRequest
           (Raw.mkAdvancedSearchRequest (Some query) raw group_ids
              (Some recipe))
         = inr (AdvancedSearchRequest.mk query (max_facts_of raw)
                  group_ids recipe))
       Validate.edge_recipes
  /\ Forall (fun recipe =>
       forall query raw group_ids,
         Validate.AdvancedSearchV2Request
           (Raw.mkAdvancedSearchRequest (Some query) raw group_ids
              (Some recipe))
         = inr (AdvancedSearchV2Request.mk query (max_facts_of raw)
                  group_ids recipe))
       Validate.combined_recipes
  /\ (forall group_ids query raw (w : world Job),
         calls (snd (Retrieve.handler Job
                       (Retrieve.POST_search
                          (Raw.mkSearchQuery group_ids (Some query) raw))
                       w))
         = calls w ++ [Search group_ids query (max_facts_of raw) None])
  /\ (forall group_ids query raw center (w : world Job),
         calls (snd (Retrieve.handler Job
                       (Retrieve.POST_search_centered
                          (Raw.mkCenteredSearchQuery group_ids (Some query)
                             raw (Some center)))
                       w))
         = calls w
             ++ [Search group_ids query (max_facts_of raw) (Some center)]).
Proof.
  split; [|split; [|split; [|split; [|split]]]].
  - intros. unfold Validate.SearchQuery. simpl.
    now rewrite validate_max_facts.
  - intros. unfold Validate.CenteredSearchQuery. simpl.
    now rewrite validate_max_facts.
  - repeat constructor; intros; unfold Validate.AdvancedSearchRequest;
      simpl; now rewrite validate_max_facts.
  - repeat constructor; intros; unfold Validate.AdvancedSearchV2Request;
      simpl; now rewrite validate_max_facts.
  - intros. unfold Retrieve.handler, bind, lift, Validate.SearchQuery.
    simpl. rewrite validate_max_facts.
    unfold Retrieve.search, Retrieve.graphiti_search, bind. simpl.
    rewrite await_unfold.
    destruct (fst (search group_ids query (max_facts_of raw) None
                     (graph w))); reflexivity.
  - intros. unfold Retrieve.handler, bind, lift,
      Validate.CenteredSearchQuery.
    simpl. rewrite validate_max_facts.
    unfold Retrieve.search_centered, Retrieve.graphiti_search, bind. simpl.
    rewrite await_unfold.
    destruct (fst (search group_ids query (max_facts_of raw) (Some center)
                     (graph w))); reflexivity.
Qed.

(** C10. [advanced_search] does not read [max_facts]: two requests that
    differ only there run alike, with the same engine call, the same
    change of the world and the same answer; the configuration sent is
    the recipe as it is stored. [advanced_search_v2] sends the recipe
    with its limit set to [max_facts]. *)
Theorem advanced_search_ignores_max_facts :
  (forall query m1 m2 group_ids recipe (w : world Job),
      Retrieve.advanced_search Job
        (AdvancedSearchRequest.mk query m1 group_ids recipe) w
      = Retrieve.advanced_search Job
          (AdvancedSearchRequest.mk query m2 group_ids recipe) w)
  /\ (forall query m group_ids recipe (w : world Job),
         calls (snd (Retrieve.advanced_search Job
                       (AdvancedSearchRequest.mk query m group_ids recipe)
                       w))
         = match search_config_recipes recipe with
           | Some config =>
               calls w ++ [SearchWithConfig query group_ids config]
           | None => calls w
           end)
  /\ (forall query m group_ids recipe (w : world Job),
         calls (snd (Retrieve.advanced_search_v2 Job
                       (AdvancedSearchV2Request.mk query m group_ids recipe)
                       w))
         = match search_config_recipes recipe with
           | Some config =>
               calls w
                 ++ [SearchWithConfig query group_ids
                       (mkSearchConfig m (config_body config))]
           | None => calls w
           end).
Proof.
  split; [|split].
  - reflexivity.
  - intros. unfold Retrieve.advanced_search, Retrieve.getattr_recipe,
      Retrieve.graphiti__search, bind, lift. simpl.
    destruct (search_config_recipes recipe) as [config|]; [|reflexivity].
    rewrite await_unfold.
    destruct (fst (_search query group_ids config (graph w)));
      reflexivity.
  - intros. unfold Retrieve.advanced_search_v2, Retrieve.getattr_recipe,
      Retrieve.graphiti__search, bind, lift. simpl.
    destruct (search_config_recipes recipe) as [config|]; [|reflexivity].
    rewrite await_unfold.
    destruct (fst (_search query group_ids (set_limit m config) (graph w)));
      reflexivity.
Qed.

End SearchClaims.

(** A plain search with [max_facts] 0 on the small engine: validation lets
    it through and the engine is asked for 0 results. The reading of C9 in
    which the request is rejected fails here. *)
Lemma max_facts_zero_reaches_engine :
  Validate.SearchQuery (Raw.mkSearchQuery None (Some "q") (Some 0))
  = inr (SearchQuery.mk None "q" 0)
  /\ Retrieve.handler nat
       (Retrieve.POST_search (Raw.mkSearchQuery None (Some "q") (Some 0)))
       Demo.world0
     = (inr (Retrieve.SearchResultsBody (SearchResults.mk [])),
        Service.mkWorld (G := Demo.demo_graphiti) [] 
          [Service.Search (G := Demo.demo_graphiti) None "q" 0 None]
          (AsyncWorker.mk [] (Some AsyncWorker.Waiting))
          "2024-06-01T12:00:00+00:00")
  /\ ~ rejected
         (Retrieve.POST_search (Raw.mkSearchQuery None (Some "q") (Some 0)))
         Demo.world0.
Proof.
  split; [reflexivity|]. split; [reflexivity|].
  intros [field [H _]]. discriminate H.
Qed.

(** On a graph of three episodes, [advanced_search] answers with the
    recipe's own limit of 3 whatever [max_facts] says, and
    [advanced_search_v2] answers with [max_facts] facts. *)
Example advanced_search_demo :
  let w := Service.mkWorld (G := Demo.demo_graphiti) (Job := nat)
             [("a", "x"); ("b", "y"); ("c", "z")] []
             (AsyncWorker.mk [] (Some AsyncWorker.Waiting))
             "2024-06-01T12:00:00+00:00" in
  fst (Retrieve.advanced_search nat
         (AdvancedSearchRequest.mk "q" 1 None "EDGE_HYBRID_SEARCH_RRF") w)
  = inr (SearchResults.mk (map Demo.fact_of ["a"; "b"; "c"]))
  /\ fst (Retrieve.advanced_search_v2 nat
            (AdvancedSearchV2Request.mk "q" 1 None
               "COMBINED_HYBRID_SEARCH_RRF") w)
     = inr (AdvancedSearchV2Response.mk (map Demo.fact_of ["a"]) []).
Proof. split; reflexivity. Qed.

(** ** The worker over its whole life *)

Section WorkerLife.
Variable Job : Type.
Import AsyncWorker.
Local Open Scope list_scope.
Local Open Scope nat_scope.

(** A move of another task leaves [self.task] as it is. *)
Lemma other_keeps_task (n : nat) (w w' : AsyncWorker.t Job)
  (evs : list (event Job)) :
  other_get n w = Some (w', evs)
  \/ (exists outcome, other_job_ended n outcome w = Some (w', evs)) ->
  task w' = task w.
Proof.
  unfold other_get, other_job_ended.
  intros [H|[outcome H]];
    destruct (nth_error (others w) n) as [s|]; try discriminate.
  - destruct (resume_get s (queue w)) as [[[s' q'] evs']|];
      [|discriminate].
    now injection H as <- <-.
  - destruct (resume_job outcome s) as [[s' evs']|]; [|discriminate].
    now injection H as <- <-.
Qed.

Lemma started_stays_started (inputs : list (input Job)) :
  forall (w w' : AsyncWorker.t Job) (evs : list (event Job)),
    task w <> None ->
    run inputs w = Some (w', evs) ->
    task w' <> None.
Proof.
  induction inputs as [|i rest IH]; intros w w' evs Hstarted Hrun.
  - simpl in Hrun. now injection Hrun as <- <-.
  - simpl in Hrun.
    destruct (step i w) as [[w1 evs1]|] eqn:Hstep; [|discriminate].
    destruct (run rest w1) as [[w2 evs2]|] eqn:Hrest; [|discriminate].
    injection Hrun as <- <-.
    apply (IH w1 w2 evs2); [|exact Hrest].
    destruct i as [job| | | |e| |n|n|n e]; simpl in Hstep.
    + now injection Hstep as <- <-.
    + injection Hstep as <- <-. discriminate.
    + rewrite worker_get_cases in Hstep.
      destruct (task w) as [[| | |]|]; try discriminate.
      destruct (queue w); [discriminate|].
      now injection Hstep as <- <-.
    + rewrite worker_job_ended_cases in Hstep.
      destruct (task w) as [[| | |]|]; try discriminate.
      now injection Hstep as <- <-.
    + rewrite worker_job_ended_cases in Hstep.
      destruct (task w) as [[| | |]|]; try discriminate.
      destruct e; now injection Hstep as <- <-.
    + rewrite stop_cases in Hstep.
      destruct (task w) as [[| | |]|]; [| | | |congruence];
        now injection Hstep as <- <-.
    + rewrite (other_keeps_task _ _ _ _ (or_introl Hstep)). exact Hstarted.
    + rewrite (other_keeps_task _ _ _ _ (or_intror (ex_intro _ _ Hstep))).
      exact Hstarted.
    + rewrite (other_keeps_task _ _ _ _ (or_intror (ex_intro _ _ Hstep))).
      exact Hstarted.
Qed.

(** A task ends with an exception only when a job raised it. *)
Lemma failed_by_step (i : input Job) (w w' : AsyncWorker.t Job)
  (evs : list (event Job)) (e : exn) :
  step i w = Some (w', evs) ->
  task w' = Some (Failed e) ->
  task w = Some (Failed e)
  \/ (e <> CancelledError /\ exists job, evs = [Raised job e]).
Proof.
  intros Hstep Hfailed.
  destruct i as [job| | | |e'| |n|n|n e']; simpl in Hstep.
  - injection Hstep as <- <-. now left.
  - injection Hstep as <- <-. discriminate.
  - rewrite worker_get_cases in Hstep.
    destruct (task w) as [[| | |]|]; try discriminate.
    destruct (queue w); [discriminate|].
    injection Hstep as <- <-. discriminate.
  - rewrite worker_job_ended_cases in Hstep.
    destruct (task w) as [[| | |]|]; try discriminate.
    injection Hstep as <- <-. discriminate.
  - rewrite worker_job_ended_cases in Hstep.
    destruct (task w) as [[|job| |]|]; try discriminate.
    right.
    destruct e'; injection Hstep as <- <-; simpl in Hfailed;
      try discriminate; injection Hfailed as <-;
      (split; [discriminate | now exists job]).
  - rewrite stop_cases in Hstep.
    destruct (task w) as [[| | |e']|]; injection Hstep as <- <-;
      simpl in Hfailed; try discriminate.
    now left.
  - left. now rewrite <- (other_keeps_task _ _ _ _ (or_introl Hstep)).
  - left.
    now rewrite <- (other_keeps_task _ _ _ _
                      (or_intror (ex_intro _ _ Hstep))).
  - left.
    now rewrite <- (other_keeps_task _ _ _ _
                      (or_intror (ex_intro _ _ Hstep))).
Qed.

Lemma failed_by_run (inputs : list (input Job)) :
  forall (w w' : AsyncWorker.t Job) (evs : list (event Job)) (e : exn),
    run inputs w = Some (w', evs) ->
    task w' = Some (Failed e) ->
    task w = Some (Failed e)
    \/ (e <> CancelledError /\ exists job, In (Raised job e) evs).
Proof.
  induction inputs as [|i rest IH]; intros w w' evs e Hrun Hfailed.
  - simpl in Hrun. injection Hrun as <- <-. now left.
  - simpl in Hrun.
    destruct (step i w) as [[w1 evs1]|] eqn:Hstep; [|discriminate].
    destruct (run rest w1) as [[w2 evs2]|] eqn:Hrest; [|discriminate].
    injection Hrun as <- <-.
    destruct (IH w1 w2 evs2 e Hrest Hfailed) as [H1|[Hne [job Hin]]].
    + destruct (failed_by_step i w w1 evs1 e Hstep H1)
        as [H|[Hne [job ->]]]; [now left|].
      right. split; [exact Hne|]. exists job. now left.
    + right. split; [exact Hne|]. exists job.
      apply in_or_app. now right.
Qed.

Lemma lifespan_unfold (app : list (Lifespan.activity Job)) :
  Lifespan.lifespan app init
  = match run (map Lifespan.input_of app) (mk [] (Some Waiting)) with
    | None => None
    | Some (w2, evs) =>
        let '(r, w3, evs') := stop w2 in Some (r, w3, evs ++ evs')
    end.
Proof. reflexivity. Qed.

Lemma consistent_started : consistent (Job := Job) [] [] (mk [] (Some Waiting)).
Proof.
  split; [reflexivity|]. split; [reflexivity|]. split; [|split].
  - intros t1 t2 H. symmetry in H. apply app_eq_nil in H as [-> _].
    now left.
  - intros t1 job t2 H. destruct t1; discriminate.
  - reflexivity.
Qed.

(** The application never calls [start]. *)
Lemma app_never_starts (app : list (Lifespan.activity Job)) :
  ~ In DoStart (map Lifespan.input_of app).
Proof.
  induction app as [|a rest IH]; simpl; [auto|].
  intros [H|H]; [destruct a; discriminate H | now apply IH].
Qed.

(** X1. When [lifespan] ends with [stop] returning, the worker is left
    with an empty queue and an ended task, no job is in flight, and the
    jobs submitted while the application ran are, in the order of
    submission, exactly the jobs that were begun or discarded. *)
Theorem lifespan_clean_shutdown (app : list (Lifespan.activity Job))
  (w : AsyncWorker.t Job) (trace : list (event Job)) :
  Lifespan.lifespan app init = Some (inr tt, w, trace) ->
  queue w = []
  /\ task w = Some Finished
  /\ in_flight trace = Some 0
  /\ taken trace = submitted (map Lifespan.input_of app).
Proof.
  rewrite lifespan_unfold.
  destruct (run (map Lifespan.input_of app) (mk [] (Some Waiting)))
    as [[w2 evs]|] eqn:Hrun; [|discriminate].
  pose proof (consistent_run Job _ [] [] evs _ w2 consistent_started
                (no_start_starts_when_idle Job _ _ (app_never_starts app))
                Hrun)
    as [Hq [Hn [_ _]]].
  assert (Hsome : task w2 <> None).
  { apply (started_stays_started (map Lifespan.input_of app)
             (mk [] (Some Waiting)) w2 evs); [discriminate|exact Hrun]. }
  simpl in Hq, Hn. unfold running in Hn.
  rewrite stop_cases.
  destruct (discarded_only Job (queue w2)) as [Ht [_ [_ [_ Hfl]]]].
  destruct (task w2) as [[|job| |e]|] eqn:Htask; intros H;
    try discriminate; try congruence; injection H as <- <-.
  - split; [reflexivity|]. split; [reflexivity|]. split.
    + unfold in_flight in *. now rewrite in_flight_from_app, Hn, Hfl.
    + now rewrite taken_app, Ht.
  - split; [reflexivity|]. split; [reflexivity|]. split.
    + unfold in_flight in *. rewrite in_flight_from_app, Hn. simpl.
      now rewrite Hfl.
    + rewrite taken_app. simpl. now rewrite Ht.
  - split; [reflexivity|]. split; [reflexivity|]. split.
    + unfold in_flight in *. now rewrite in_flight_from_app, Hn, Hfl.
    + now rewrite taken_app, Ht.
Qed.

(** X2. When [lifespan] ends with [stop] raising [e], then [e] is not
    [CancelledError], a job has raised [e] while the application ran, and
    the worker task is left ended with [e]. *)
Theorem lifespan_failed_shutdown (app : list (Lifespan.activity Job))
  (e : exn) (w : AsyncWorker.t Job) (trace : list (event Job)) :
  Lifespan.lifespan app init = Some (inl e, w, trace) ->
  e <> CancelledError
  /\ (exists job, In (Raised job e) trace)
  /\ task w = Some (Failed e).
Proof.
  rewrite lifespan_unfold.
  destruct (run (map Lifespan.input_of app) (mk [] (Some Waiting)))
    as [[w2 evs]|] eqn:Hrun; [|discriminate].
  rewrite stop_cases.
  destruct (task w2) as [[|job| |e']|] eqn:Htask; intros H;
    try discriminate.
  injection H as <- <- <-.
  destruct (failed_by_run _ _ _ _ _ Hrun Htask) as [H|[Hne [job Hin]]];
    [discriminate|].
  split; [exact Hne|]. split; [|reflexivity].
  exists job. rewrite app_nil_r. exact Hin.
Qed.

(** X3. A second [stop] changes nothing: after [stop], whatever the
    worker was, [stop] again returns or raises as the first did, leaves
    the worker as the first left it, and takes no job from the queue. *)
Theorem stop_twice (w : AsyncWorker.t Job) :
  let '(r, w', _) := stop w in stop w' = (r, w', []).
Proof.
  rewrite stop_cases.
  destruct w as [q [[|job| |e]|] o]; reflexivity.
Qed.

Lemma completed_blocks (jobs : list Job) :
  completed (flat_map (fun job => [Begin job; End_ job]) jobs) = jobs.
Proof.
  induction jobs as [|job rest IH]; [reflexivity|].
  simpl. now rewrite IH.
Qed.

(** X4. Jobs submitted before [start] wait for it, and every job is run:
    with the jobs [early] put before [start] and the jobs [late] after
    it, a worker whose jobs all return runs each of them to its end, one
    after the other, [early] first and each list in its order, and is
    left waiting with an empty queue. *)
Theorem worker_runs_early_and_late_jobs (early late : list Job) :
  exists trace,
    run (map DoPut early ++ DoStart :: map DoPut late
           ++ flat_map (fun _ => [DoGet; DoJobReturns]) (early ++ late))
      init
    = Some (mk [] (Some Waiting), trace)
    /\ trace = flat_map (fun job => [Begin job; End_ job]) (early ++ late)
    /\ completed trace = early ++ late.
Proof.
  eexists. split; [|split; [reflexivity|apply completed_blocks]].
  rewrite run_app. unfold init. rewrite run_puts. simpl app.
  change (run (DoStart :: map DoPut late
                 ++ flat_map (fun _ => [DoGet; DoJobReturns]) (early ++ late))
            (mk early None))
    with (match run (map DoPut late
                       ++ flat_map (fun _ => [DoGet; DoJobReturns])
                            (early ++ late))
                  (mk early (Some Waiting)) with
          | Some (w2, evs2) => Some (w2, [] ++ evs2)
          | None => None
          end).
  rewrite run_app, run_puts, run_jobs. reflexivity.
Qed.

(** X5. Before [start] no job runs: in a run without [start], whatever
    is put on the queue and even when [stop] is called, no job begins and
    the worker has no task. *)
Theorem no_job_before_start (inputs : list (input Job))
  (w : AsyncWorker.t Job) (trace : list (event Job)) :
  ~ In DoStart inputs ->
  run inputs init = Some (w, trace) ->
  begun trace = [] /\ completed trace = [] /\ task w = None.
Proof.
  intros Hnostart Hrun.
  destruct (idle_worker_begins_nothing Job inputs init w trace
              eq_refl eq_refl Hnostart Hrun) as [Hb [Hc [Ht _]]].
  auto.
Qed.

End WorkerLife.

Lemma lifespan_clean_shutdown_witness :
  let app := [Lifespan.Submits 1%nat; Lifespan.Submits 2%nat;
              Lifespan.Takes] in
  let w := AsyncWorker.mk [] (Some AsyncWorker.Finished) in
  let trace := [AsyncWorker.Begin 1%nat; AsyncWorker.Cancelled 1%nat;
                AsyncWorker.Discarded 2%nat] in
  Lifespan.lifespan app AsyncWorker.init = Some (inr tt, w, trace)
  /\ (AsyncWorker.queue w = []
      /\ AsyncWorker.task w = Some AsyncWorker.Finished
      /\ AsyncWorker.in_flight trace = Some 0%nat
      /\ AsyncWorker.taken trace
         = AsyncWorker.submitted (map Lifespan.input_of app)).
Proof.
  intros app w trace. split; [reflexivity|].
  apply (lifespan_clean_shutdown nat app w trace). reflexivity.
Defined.

Lemma lifespan_failed_shutdown_witness :
  let app := [Lifespan.Submits 1%nat; Lifespan.Submits 2%nat;
              Lifespan.Takes; Lifespan.Raises ValueError] in
  let w := AsyncWorker.mk [2%nat] (Some (AsyncWorker.Failed ValueError)) in
  let trace := [AsyncWorker.Begin 1%nat;
                AsyncWorker.Raised 1%nat ValueError] in
  Lifespan.lifespan app AsyncWorker.init = Some (inl ValueError, w, trace)
  /\ (ValueError <> CancelledError
      /\ (exists job, In (AsyncWorker.Raised job ValueError) trace)
      /\ AsyncWorker.task w = Some (AsyncWorker.Failed ValueError)).
Proof.
  intros app w trace. split; [reflexivity|].
  apply (lifespan_failed_shutdown nat app ValueError w trace). reflexivity.
Defined.

Lemma no_job_before_start_witness :
  let inputs := [AsyncWorker.DoPut 1%nat; AsyncWorker.DoStop;
                 AsyncWorker.DoPut 2%nat] in
  let w := AsyncWorker.mk [2%nat] None in
  let trace := [AsyncWorker.Discarded 1%nat] in
  ~ In AsyncWorker.DoStart inputs
  /\ AsyncWorker.run inputs AsyncWorker.init = Some (w, trace)
  /\ (AsyncWorker.begun trace = [] /\ AsyncWorker.completed trace = []
      /\ AsyncWorker.task w = None).
Proof.
  intros inputs w trace.
  assert (Hno : ~ In AsyncWorker.DoStart inputs).
  { simpl. intros [H|[H|[H|[]]]]; discriminate H. }
  split; [exact Hno|]. split; [reflexivity|].
  apply (no_job_before_start nat inputs w trace Hno). reflexivity.
Defined.

(** ** What the handlers leave alone *)

Section HandlersAndWorker.
Context {DT : DateTime} {G : Graphiti} {ENV : Environ}.
Variable Job : Type.
Import Service.
Local Open Scope list_scope.

Lemma keeps_ret {A : Type} (x : A) : keeps_worker (Job := Job) (ret x).
Proof. intros w. split; reflexivity. Qed.

Lemma keeps_lift {A : Type} (r : result A) :
  keeps_worker (Job := Job) (lift r).
Proof. intros w. split; reflexivity. Qed.

Lemma keeps_utcnow : keeps_worker (Job := Job) utcnow.
Proof. intros w. split; reflexivity. Qed.

Lemma keeps_await {A : Type} (c : call)
  (op : engine -> result A * engine) :
  keeps_worker (Job := Job) (await c op).
Proof. intros w. rewrite await_unfold. split; reflexivity. Qed.

Lemma keeps_bind {A B : Type} (c : M Job A) (k : A -> M Job B) :
  keeps_worker c -> (forall x, keeps_worker (k x)) ->
  keeps_worker (bind c k).
Proof.
  intros Hc Hk w. unfold bind.
  destruct (Hc w) as [H1 H2].
  destruct (c w) as [[e|x] w1]; simpl in *; [now split|].
  destruct (Hk x w1) as [H3 H4]. split; congruence.
Qed.

Lemma keeps_for_each {A : Type} (l : list A) (body : A -> M Job unit) :
  (forall x, keeps_worker (body x)) -> keeps_worker (for_each l body).
Proof.
  intros Hbody. induction l as [|x rest IH]; simpl.
  - apply keeps_ret.
  - apply keeps_bind; [apply Hbody|intros _; exact IH].
Qed.

Ltac keeps :=
  repeat first
    [ apply keeps_ret | apply keeps_lift | apply keeps_utcnow
    | apply keeps_await | apply keeps_for_each; intros ?
    | apply keeps_bind; [|intros ?] ].

(** X6. No route of either router changes the worker: whatever the
    header, the route and its payload, and whether the request ends with
    an answer or an error, the queue and the task of [async_worker] are
    after the request what they were before it. *)
Theorem routes_leave_worker_alone (authorization : option string) :
  (forall (r : Ingest.request) (w : world Job),
      async_worker (snd (Ingest.router Job authorization r w))
      = async_worker w)
  /\ (forall (r : Retrieve.request) (w : world Job),
         async_worker (snd (Retrieve.router Job authorization r w))
         = async_worker w).
Proof.
  split.
  - intros r w.
    assert (H : keeps_worker (Ingest.router Job authorization r)).
    { unfold Ingest.router.
      apply keeps_bind; [apply keeps_lift|intros _].
      apply keeps_bind; [|intros body; apply keeps_ret].
      destruct r; simpl;
        unfold Ingest.add_conversation, Ingest.add_text_episode,
          Ingest.add_document, Ingest.delete_group, Ingest.clear,
          Ingest.graphiti_add_episode; keeps. }
    apply H.
  - intros r w.
    assert (H : keeps_worker (Retrieve.router Job authorization r)).
    { unfold Retrieve.router.
      apply keeps_bind; [apply keeps_lift|intros _].
      apply keeps_bind; [|intros body; apply keeps_ret].
      destruct r; simpl;
        unfold Retrieve.search, Retrieve.search_centered,
          Retrieve.advanced_search, Retrieve.advanced_search_v2,
          Retrieve.get_episodes, Retrieve.graphiti_search,
          Retrieve.graphiti__search; keeps. }
    apply H.
Qed.

(** X7. A retrieval request whose payload fails validation ends with that
    error, a [ValidationError], before anything else happens: the engine
    is not called and the world is as it was. *)
Theorem invalid_payload_stops_before_engine (r : Retrieve.request)
  (w : world Job) (e : exn) :
  payload_error r = Some e ->
  Retrieve.handler Job r w = (inl e, w)
  /\ exists field, e = ValidationError field.
Proof.
  assert (Hnum : forall f raw e',
    Pydantic.validate_int "max_facts" f raw = inl e' ->
    e' = ValidationError "max_facts").
  { intros f raw e'. unfold Pydantic.validate_int.
    destruct raw as [v|].
    - destruct (Pydantic.constraints_ok f v); [discriminate|congruence].
    - destruct (Pydantic.default f); [discriminate|congruence]. }
  assert (Hreq : forall (A : Type) name (raw : option A) e',
    Pydantic.validate_required name raw = inl e' ->
    e' = ValidationError name).
  { intros A name raw e'. destruct raw; simpl; [discriminate|congruence]. }
  assert (Hlit : forall name allowed raw e',
    Pydantic.validate_literal name allowed raw = inl e' ->
    e' = ValidationError name).
  { intros name allowed raw e'. unfold Pydantic.validate_literal.
    destruct raw as [v|]; [|congruence].
    destruct (existsb (String.eqb v) allowed); [discriminate|congruence]. }
  destruct r as [body|body|body|body|group_id last_n]; simpl;
    [| | | |discriminate].
  - destruct (Validate.SearchQuery body) as [e'|q] eqn:Hv;
      [|discriminate]. intros H. injection H as <-.
    split; [unfold bind, lift; reflexivity|].
    unfold Validate.SearchQuery in Hv.
    destruct (Pydantic.validate_required "query" (Raw.sq_query body))
      eqn:H1; [injection Hv as <-; eauto|].
    destruct (Pydantic.validate_int "max_facts" Validate.max_facts_field
                (Raw.sq_max_facts body)) eqn:H2; [|discriminate].
    injection Hv as <-. eauto.
  - destruct (Validate.CenteredSearchQuery body) as [e'|q] eqn:Hv;
      [|discriminate]. intros H. injection H as <-.
    split; [unfold bind, lift; reflexivity|].
    unfold Validate.CenteredSearchQuery in Hv.
    destruct (Pydantic.validate_required "query" (Raw.cq_query body))
      eqn:H1; [injection Hv as <-; eauto|].
    destruct (Pydantic.validate_int "max_facts" Validate.max_facts_field
                (Raw.cq_max_facts body)) eqn:H2;
      [injection Hv as <-; eauto|].
    destruct (Pydantic.validate_required "center_node_uuid"
                (Raw.cq_center_node_uuid body)) eqn:H3; [|discriminate].
    injection Hv as <-. eauto.
  - destruct (Validate.AdvancedSearchRequest body) as [e'|q] eqn:Hv;
      [|discriminate]. intros H. injection H as <-.
    split; [unfold bind, lift; reflexivity|].
    unfold Validate.AdvancedSearchRequest in Hv.
    destruct (Pydantic.validate_required "query" (Raw.ar_query body))
      eqn:H1; [injection Hv as <-; eauto|].
    destruct (Pydantic.validate_int "max_facts" Validate.max_facts_field
                (Raw.ar_max_facts body)) eqn:H2;
      [injection Hv as <-; eauto|].
    destruct (Pydantic.validate_literal "recipe" Validate.edge_recipes
                (Raw.ar_recipe body)) eqn:H3; [|discriminate].
    injection Hv as <-. eauto.
  - destruct (Validate.AdvancedSearchV2Request body) as [e'|q] eqn:Hv;
      [|discriminate]. intros H. injection H as <-.
    split; [unfold bind, lift; reflexivity|].
    unfold Validate.AdvancedSearchV2Request in Hv.
    destruct (Pydantic.validate_required "query" (Raw.ar_query body))
      eqn:H1; [injection Hv as <-; eauto|].
    destruct (Pydantic.validate_int "max_facts" Validate.max_facts_field
                (Raw.ar_max_facts body)) eqn:H2;
      [injection Hv as <-; eauto|].
    destruct (Pydantic.validate_literal "recipe" Validate.combined_recipes
                (Raw.ar_recipe body)) eqn:H3; [|discriminate].
    injection Hv as <-. eauto.
Qed.

End HandlersAndWorker.

Lemma invalid_payload_stops_before_engine_witness :
  let r := Retrieve.POST_search_advanced
             (Raw.mkAdvancedSearchRequest (Some "q") None None
                (Some "COMBINED_HYBRID_SEARCH_RRF")) in
  payload_error r = Some (ValidationError "recipe")
  /\ (Retrieve.handler nat r Demo.world0
      = (inl (ValidationError "recipe"), Demo.world0)
      /\ exists field, ValidationError "recipe" = ValidationError field).
Proof.
  intros r. split; [reflexivity|].
  apply (invalid_payload_stops_before_engine nat r Demo.world0). reflexivity.
Defined.

(** ** The recipes of the advanced searches *)

Section Recipes.
Context {DT : DateTime} {G : Graphiti}.
Local Open Scope list_scope.



(** X9. The [attributes] of a [NodeResult] are never an empty mapping:
    they are [None] exactly when the node has no attributes, has [None]
    or has none in its mapping, and otherwise they have the keys of the
    node's attributes, in order, each with its value as a string. *)
Theorem node_result_attributes (node : EntityNode) :
  NodeResult.attributes (Retrieve.node_result node) <> Some []
  /\ (NodeResult.attributes (Retrieve.node_result node) = None
      <-> (node_attributes node = None
           \/ node_attributes node = Some None
           \/ node_attributes node = Some (Some [])))
  /\ (forall attributes,
         NodeResult.attributes (Retrieve.node_result node) = Some attributes ->
         exists raw,
           node_attributes node = Some (Some raw)
           /\ map fst attributes = map fst raw
           /\ map snd attributes = map attribute_str (map snd raw)).
Proof.
  unfold Retrieve.node_result. simpl.
  destruct (node_attributes node) as [[[|kv raw]|]|].
  - split; [discriminate|]. split; [|discriminate].
    split; [auto|reflexivity].
  - split; [discriminate|]. split.
    + split; [discriminate|].
      intros [H|[H|H]]; discriminate.
    + intros attributes H. injection H as <-.
      exists (kv :: raw). split; [reflexivity|].
      simpl. split; f_equal; rewrite ?map_map; reflexivity.
  - split; [discriminate|]. split; [|discriminate].
    split; [auto|reflexivity].
  - split; [discriminate|]. split; [|discriminate].
    split; [auto|reflexivity].
Qed.

End Recipes.

(** ** More on the token *)

Section TokenEdges.
Context {ENV : Environ}.

Lemma before_has_no_separator (c : ascii) (s : string) :
  occurs c (before c s) = false.
Proof.
  induction s as [|c' s IH]; simpl; [reflexivity|].
  destruct (Ascii.eqb c' c) eqn:Hc; simpl; [reflexivity|].
  now rewrite Hc.
Qed.

Lemma before_separator (c : ascii) (s rest : string) :
  occurs c s = false -> before c (s ++ String c rest) = s.
Proof.
  induction s as [|c' s IH]; simpl; intros H.
  - now rewrite Ascii.eqb_refl.
  - apply orb_false_iff in H as [Hc Hs]. now rewrite Hc, (IH Hs).
Qed.

Lemma before_without_separator (c : ascii) (s : string) :
  occurs c s = false -> before c s = s.
Proof.
  induction s as [|c' s IH]; simpl; intros H; [reflexivity|].
  apply orb_false_iff in H as [Hc Hs]. now rewrite Hc, (IH Hs).
Qed.

(** X10. When [API_TOKEN] is not set, or is set to a text with a space in
    it, the gate lets no request through, whatever its header: the token
    taken from a header never holds a space and is never [None]. *)
Theorem secret_out_of_reach (authorization : option string) :
  getenv "API_TOKEN" = None
  \/ (exists secret,
        getenv "API_TOKEN" = Some secret /\ occurs " " secret = true) ->
  Ingest.verify_token authorization <> inr tt
  /\ Retrieve.verify_token authorization <> inr tt.
Proof.
  intros Hsecret.
  assert (H : Ingest.verify_token authorization <> inr tt).
  { destruct (bearer_or_not authorization) as [[rest ->]|Hno].
    - rewrite verify_token_bearer.
      destruct (Py.ne_optional (before " " rest) Ingest.api_token) eqn:Hne;
        [discriminate|].
      apply ne_optional_false in Hne. unfold Ingest.api_token in Hne.
      destruct Hsecret as [Hnone|[secret [Hsome Hspace]]].
      + congruence.
      + rewrite Hsome in Hne. injection Hne as ->.
        rewrite before_has_no_separator in Hspace. discriminate.
    - rewrite (verify_token_not_bearer authorization Hno). discriminate. }
  split; exact H.
Qed.

(** X11. What follows the token in the header does not count: after
    ["Bearer "] and a token without a space, a space and any further text
    change nothing to the answer of the gate. *)
Theorem trailing_text_ignored (token extra : string) :
  occurs " " token = false ->
  Ingest.verify_token (Some ("Bearer " ++ token ++ " " ++ extra))
  = Ingest.verify_token (Some ("Bearer " ++ token))
  /\ Retrieve.verify_token (Some ("Bearer " ++ token ++ " " ++ extra))
     = Retrieve.verify_token (Some ("Bearer " ++ token)).
Proof.
  intros Hclean.
  assert (H : Ingest.verify_token (Some ("Bearer " ++ token ++ " " ++ extra))
              = Ingest.verify_token (Some ("Bearer " ++ token))).
  { rewrite !verify_token_bearer.
    change (token ++ " " ++ extra) with (token ++ String " " extra).
    now rewrite before_separator, before_without_separator. }
  split; exact H.
Qed.

End TokenEdges.

Lemma secret_out_of_reach_witness :
  (@getenv Demo.spaced_secret "API_TOKEN" = None
   \/ (exists secret,
         @getenv Demo.spaced_secret "API_TOKEN" = Some secret
         /\ occurs " " secret = true))
  /\ (Ingest.verify_token (ENV := Demo.spaced_secret)
        (Some "Bearer my secret") <> inr tt
      /\ Retrieve.verify_token (ENV := Demo.spaced_secret)
           (Some "Bearer my secret") <> inr tt).
Proof.
  assert (H : @getenv Demo.spaced_secret "API_TOKEN" = None
              \/ (exists secret,
                    @getenv Demo.spaced_secret "API_TOKEN" = Some secret
                    /\ occurs " " secret = true)).
  { right. exists "my secret". split; reflexivity. }
  split; [exact H|].
  apply (secret_out_of_reach (ENV := Demo.spaced_secret)
           (Some "Bearer my secret") H).
Defined.

Lemma trailing_text_ignored_witness :
  occurs " " "s3cret" = false
  /\ (Ingest.verify_token (ENV := Demo.demo_environ)
        (Some ("Bearer " ++ "s3cret" ++ " " ++ "and more"))
      = Ingest.verify_token (ENV := Demo.demo_environ)
          (Some ("Bearer " ++ "s3cret"))
      /\ Retrieve.verify_token (ENV := Demo.demo_environ)
           (Some ("Bearer " ++ "s3cret" ++ " " ++ "and more"))
         = Retrieve.verify_token (ENV := Demo.demo_environ)
             (Some ("Bearer " ++ "s3cret"))).
Proof.
  split; [reflexivity|].
  apply (trailing_text_ignored (ENV := Demo.demo_environ)
           "s3cret" "and more").
  reflexivity.
Defined.

(** ** More on the parts of a document *)

Section PartsEdges.
Local Open Scope list_scope.

Lemma range_up_nth (stop step : Z) (fuel : nat) :
  forall (start : Z) (k : nat) (x : Z),
    nth_error (Py.range_up fuel start stop step) k = Some x ->
    x = start + Z.of_nat k * step /\ x < stop.
Proof.
  induction fuel as [|fuel IH]; intros start k x Hnth; simpl in Hnth.
  - destruct k; discriminate.
  - destruct (Z.ltb_spec start stop) as [Hlt|Hge].
    + destruct k as [|k]; simpl in Hnth.
      * injection Hnth as <-. lia.
      * destruct (IH (start + step) k x Hnth) as [-> Hx]. lia.
    + destruct k; discriminate.
Qed.

(** X12. [dividir_em_partes] with a limit that is not positive: 0 raises
    [ValueError] for every text, the empty one included, and a negative
    limit gives no part at all, whatever the text. *)
Theorem dividir_em_partes_bad_limit (texto : string) (limite : Z) :
  limite <= 0 ->
  Ingest.dividir_em_partes texto limite
  = if limite =? 0 then inl ValueError else inr [].
Proof.
  intros Hbad. unfold Ingest.dividir_em_partes, Py.range.
  destruct (Z.eqb_spec limite 0); [reflexivity|].
  destruct (Z.ltb_spec 0 limite); [lia|].
  replace (Z.to_nat (0 - Py.len texto)) with 0%nat
    by (unfold Py.len; lia).
  reflexivity.
Qed.

(** X13. For any positive limit, [dividir_em_partes] returns
    [ceil(L / limite)] parts that join back to the text, and the parts are
    the slices of the text at the multiples of the limit: part [i]
    (counted from 0) is [texto[i*limite : i*limite + limite]]; every part
    but the last has exactly [limite] characters, and the last has the
    characters that are left. *)
Theorem parts_are_full_slices (texto : string) (limite : Z) :
  0 < limite ->
  exists partes,
    Ingest.dividir_em_partes texto limite = inr partes
    /\ Z.of_nat (List.length partes) = ceil_div (Py.len texto) limite
    /\ Py.join "" partes = texto
    /\ forall (i : nat) (parte : string),
         nth_error partes i = Some parte ->
         parte = Py.slice texto (Z.of_nat i * limite)
                   (Z.of_nat i * limite + limite)
         /\ (S i < List.length partes -> Py.len parte = limite)%nat
         /\ (S i = List.length partes ->
             Py.len parte = Py.len texto - Z.of_nat i * limite).
Proof.
  intros Hpos.
  destruct (dividir_em_partes_spec texto limite Hpos)
    as [partes [Hpartes [Hcount [_ Hjoin]]]].
  exists partes. split; [exact Hpartes|].
  split; [exact Hcount|]. split; [exact Hjoin|].
  intros i parte Hnth.
  unfold Ingest.dividir_em_partes, Py.range in Hpartes.
  destruct (Z.eqb_spec limite 0); [lia|].
  destruct (Z.ltb_spec 0 limite); [|lia].
  injection Hpartes as Hpartes. rewrite <- Hpartes in Hnth.
  rewrite nth_error_map in Hnth.
  destruct (nth_error (Py.range_up (Z.to_nat (Py.len texto - 0)) 0
                         (Py.len texto) limite) i) as [x|] eqn:Hx;
    [|discriminate].
  injection Hnth as <-.
  apply range_up_nth in Hx as [-> Hin]. simpl.
  split; [reflexivity|].
  pose proof (ceil_div_spec (Py.len texto) limite Hpos) as Hceil.
  rewrite <- Hcount in Hceil.
  assert (Hlen : 0 <= Py.len texto) by (unfold Py.len; lia).
  split; intros Hi; rewrite slice_length by lia; nia.
Qed.

End PartsEdges.

Lemma dividir_em_partes_bad_limit_witness :
  -3 <= 0
  /\ Ingest.dividir_em_partes "abc" (-3)
     = if -3 =? 0 then inl ValueError else inr [].
Proof.
  split; [lia|]. apply (dividir_em_partes_bad_limit "abc" (-3)). lia.
Defined.

Lemma parts_are_full_slices_witness :
  0 < 3
  /\ exists partes,
       Ingest.dividir_em_partes "abcdefg" 3 = inr partes
       /\ Z.of_nat (List.length partes) = ceil_div (Py.len "abcdefg") 3
       /\ Py.join "" partes = "abcdefg"
       /\ forall (i : nat) (parte : string),
            nth_error partes i = Some parte ->
            parte = Py.slice "abcdefg" (Z.of_nat i * 3) (Z.of_nat i * 3 + 3)
            /\ ((S i < List.length partes)%nat -> Py.len parte = 3)
            /\ (S i = List.length partes ->
                Py.len parte = Py.len "abcdefg" - Z.of_nat i * 3).
Proof.
  split; [lia|]. apply (parts_are_full_slices "abcdefg" 3). lia.
Defined.

(** ** A document from the request to the engine *)

Section DocumentRoundTrip.
Context {DT : DateTime} {G : Graphiti}.
Variable Job : Type.
Import Service.
Local Open Scope list_scope.



End DocumentRoundTrip.


(** ** Conversations in pieces *)

Section ConversationPieces.
Context {DT : DateTime}.
Local Open Scope list_scope.

Lemma string_append_assoc (a b c : string) :
  ((a ++ b) ++ c)%string = (a ++ b ++ c)%string.
Proof. induction a as [|x a IH]; simpl; congruence. Qed.

Lemma join_app (sep : string) (l1 l2 : list string) :
  l1 <> [] -> l2 <> [] ->
  Py.join sep (l1 ++ l2)
  = (Py.join sep l1 ++ sep ++ Py.join sep l2)%string.
Proof.
  intros H1 H2. induction l1 as [|p rest IH]; [congruence|].
  destruct rest as [|q rest].
  - destruct l2 as [|r l2]; [congruence|]. reflexivity.
  - change (Py.join sep ((p :: q :: rest) ++ l2))
      with (p ++ sep ++ Py.join sep ((q :: rest) ++ l2))%string.
    rewrite IH by discriminate.
    change (Py.join sep (p :: q :: rest))
      with (p ++ sep ++ Py.join sep (q :: rest))%string.
    now rewrite !string_append_assoc.
Qed.

(** X15. Flattening goes piece by piece: the text of a conversation made
    of two runs of messages, neither empty, is the text of the first run,
    a newline, and the text of the second run. *)
Theorem conversation_text_app (first second : list Message.t) :
  first <> [] -> second <> [] ->
  Ingest.conversation_text (first ++ second)
  = (Ingest.conversation_text first ++ Ingest.newline
       ++ Ingest.conversation_text second)%string.
Proof.
  intros H1 H2. unfold Ingest.conversation_text.
  rewrite map_app. apply join_app.
  - destruct first; [congruence|discriminate].
  - destruct second; [congruence|discriminate].
Qed.

End ConversationPieces.

Lemma conversation_text_app_witness :
  let first := firstn 1 Demo.messages in
  let second := skipn 1 Demo.messages in
  first <> [] /\ second <> []
  /\ Ingest.conversation_text (first ++ second)%list
     = Ingest.conversation_text first ++ Ingest.newline
         ++ Ingest.conversation_text second.
Proof.
  intros first second.
  split; [discriminate|]. split; [discriminate|].
  apply (conversation_text_app first second); discriminate.
Defined.

(** ** The queue after a failure *)

Section QueueAfterFailure.
Variable Job : Type.
Import AsyncWorker.
Local Open Scope list_scope.

(** X16. Once a job's exception has ended the task of a worker with no
    other live task, the queue only grows until [start] is called again:
    whatever happens next, [stop] included, nothing is taken from the
    queue and nothing is reported, and the queue is what it was followed
    by every job submitted since. *)
Theorem queue_only_grows_after_failure (inputs : list (input Job))
  (w w' : AsyncWorker.t Job) (evs : list (event Job)) (e : exn) :
  task w = Some (Failed e) ->
  lone w ->
  ~ In DoStart inputs ->
  run inputs w = Some (w', evs) ->
  queue w' = queue w ++ submitted inputs
  /\ evs = []
  /\ task w' = Some (Failed e).
Proof.
  revert w w' evs.
  induction inputs as [|i rest IH]; intros w w' evs Hfailed Hlone Hno Hrun.
  - simpl in Hrun. injection Hrun as <- <-.
    now rewrite app_nil_r.
  - simpl in Hrun.
    destruct (step i w) as [[w1 evs1]|] eqn:Hstep; [|discriminate].
    destruct (run rest w1) as [[w2 evs2]|] eqn:Hrest; [|discriminate].
    injection Hrun as <- <-.
    assert (H1 : queue w1 = queue w ++ submitted [i] /\ evs1 = []
                 /\ task w1 = Some (Failed e) /\ others w1 = others w).
    { destruct i as [job| | | |e'| |n|n|n e']; simpl in Hstep.
      - injection Hstep as <- <-. auto.
      - exfalso. apply Hno. now left.
      - rewrite worker_get_cases, Hfailed in Hstep. discriminate.
      - rewrite worker_job_ended_cases, Hfailed in Hstep. discriminate.
      - rewrite worker_job_ended_cases, Hfailed in Hstep. discriminate.
      - rewrite stop_cases, Hfailed in Hstep. injection Hstep as <- <-.
        simpl. now rewrite app_nil_r.
      - rewrite lone_other_get in Hstep by assumption. discriminate.
      - rewrite lone_other_job_ended in Hstep by assumption. discriminate.
      - rewrite lone_other_job_ended in Hstep by assumption.
        discriminate. }
    destruct H1 as [Hq1 [-> [Ht1 Ho1]]].
    assert (Hlone1 : lone w1) by (unfold lone; now rewrite Ho1).
    assert (Hno1 : ~ In DoStart rest)
      by (intros Hin; apply Hno; now right).
    destruct (IH w1 w2 evs2 Ht1 Hlone1 Hno1 Hrest) as [Hq2 [-> Ht2]].
    split; [|now split].
    rewrite Hq2, Hq1, <- app_assoc. f_equal.
    destruct i; reflexivity.
Qed.

End QueueAfterFailure.

Lemma queue_only_grows_after_failure_witness :
  let w := AsyncWorker.mk [2%nat] (Some (AsyncWorker.Failed ValueError)) in
  let inputs := [AsyncWorker.DoPut 3%nat; AsyncWorker.DoStop;
                 AsyncWorker.DoPut 4%nat] in
  let w' := AsyncWorker.mk [2%nat; 3%nat; 4%nat]
              (Some (AsyncWorker.Failed ValueError)) in
  AsyncWorker.task w = Some (AsyncWorker.Failed ValueError)
  /\ lone w
  /\ ~ In AsyncWorker.DoStart inputs
  /\ AsyncWorker.run inputs w = Some (w', [])
  /\ (AsyncWorker.queue w'
      = (AsyncWorker.queue w ++ AsyncWorker.submitted inputs)%list
      /\ @nil (AsyncWorker.event nat) = []
      /\ AsyncWorker.task w' = Some (AsyncWorker.Failed ValueError)).
Proof.
  intros w inputs w'.
  assert (Hno : ~ In AsyncWorker.DoStart inputs).
  { simpl. intros [H|[H|[H|[]]]]; discriminate H. }
  split; [reflexivity|]. split; [reflexivity|]. split; [exact Hno|].
  split; [reflexivity|].
  apply (queue_only_grows_after_failure nat inputs w w' [] ValueError);
    [reflexivity|reflexivity|exact Hno|reflexivity].
Defined.
